(** * Agni_Backend: the schema migration engine of [src/database/migrate.js]

    A shallow embedding of [DatabaseMigrator] (discovery of the change
    scripts, the ledger table [schema_migrations], the runner and the
    authoring helper) together with the command line dispatch found at the
    end of the same file, and the properties of the engine stated over it.

    JavaScript strings are sequences of UTF-16 code units; they are
    modelled as [list N].  The engine's collaborators (the file system, the
    database connection of [./connection], the clock, the console) are
    modelled as an explicit world that every operation threads through. *)

From Stdlib Require Import ZArith NArith List String Ascii Bool Lia.
From stdpp Require Import base decidable list sorting.
Import ListNotations.

Local Open Scope N_scope.

(** ** JavaScript strings and the built-ins the engine calls *)

Definition jsstring := list N.

(** An ASCII literal of the source as a sequence of code units. *)
Fixpoint js (s : string) : jsstring :=
  match s with
  | EmptyString => []
  | String c rest => N_of_ascii c :: js rest
  end.

Module JS.

(** [s.startsWith(pat)] *)
Fixpoint startsWith (pat s : jsstring) : bool :=
  match pat, s with
  | [], _ => true
  | _ :: _, [] => false
  | p :: pat', c :: s' => (p =? c) && startsWith pat' s'
  end.

(** [s.endsWith(suf)]: the last [suf.length] code units of [s] are [suf]. *)
Definition endsWith (suf s : jsstring) : bool :=
  (length suf <=? length s)%nat
  && bool_decide (drop (length s - length suf) s = suf).

(** [s.includes(pat)] on strings. *)
Fixpoint str_includes (pat s : jsstring) : bool :=
  startsWith pat s ||
  match s with
  | [] => false
  | _ :: s' => str_includes pat s'
  end.

(** [s.replace(pat, rep)] with a string pattern: only the first (leftmost)
    occurrence of [pat] is replaced.  The replacement strings of the
    source contain no [$], so no substitution pattern is involved. *)
Fixpoint replace (pat rep s : jsstring) : jsstring :=
  if startsWith pat s then rep ++ drop (length pat) s
  else match s with
       | [] => []
       | c :: s' => c :: replace pat rep s'
       end.

(** [s.replace(/c/g, d)] for a single literal character [c]. *)
Definition replace_char_g (c : N) (d : jsstring) (s : jsstring) : jsstring :=
  concat (map (fun x => if x =? c then d else [x]) s).

(** The class [\s] of a regular expression, which is also what [trim]
    strips: WhiteSpace and LineTerminator code points. *)
Definition is_space (c : N) : bool :=
  ((9 <=? c) && (c <=? 13))
  || (c =? 32) || (c =? 160) || (c =? 5760)
  || ((8192 <=? c) && (c <=? 8202))
  || (c =? 8232) || (c =? 8233) || (c =? 8239) || (c =? 8287)
  || (c =? 12288) || (c =? 65279).

(** [s.replace(/\s+/g, rep)]: every maximal run of white space becomes one
    [rep].  [in_run] tells that the previous code unit was white space. *)
Fixpoint replace_space_runs_from (in_run : bool) (rep s : jsstring) : jsstring :=
  match s with
  | [] => []
  | c :: s' =>
      if is_space c then
        (if in_run then [] else rep) ++ replace_space_runs_from true rep s'
      else c :: replace_space_runs_from false rep s'
  end.

Definition replace_space_runs (rep s : jsstring) : jsstring :=
  replace_space_runs_from false rep s.

(** [0-9] *)
Definition is_digit (c : N) : bool := (48 <=? c) && (c <=? 57).

(** [s.replace(/[^0-9]/g, '')] *)
Definition remove_non_digits (s : jsstring) : jsstring :=
  List.filter is_digit s.

(** [s.slice(0, n)] *)
Definition slice0 (n : nat) (s : jsstring) : jsstring := take n s.

(** [s.trim()] *)
Fixpoint trimStart (s : jsstring) : jsstring :=
  match s with
  | [] => []
  | c :: s' => if is_space c then trimStart s' else s
  end.

Definition trimEnd (s : jsstring) : jsstring := rev (trimStart (rev s)).

Definition trim (s : jsstring) : jsstring := trimEnd (trimStart s).

(** [s.split(c)] for a one-character separator: never empty, [""] splits
    into [[""]]. *)
Fixpoint split (sep : N) (s : jsstring) : list jsstring :=
  match s with
  | [] => [[]]
  | c :: s' =>
      let pieces := split sep s' in
      if c =? sep then [] :: pieces
      else match pieces with
           | p :: ps => (c :: p) :: ps
           | [] => [[c]]
           end
  end.

(** [arr.includes(v)] on an array of strings. *)
Definition includes (v : jsstring) (arr : list jsstring) : bool :=
  bool_decide (v ∈ arr).

(** The order of the default [Array.prototype.sort]: strings compared
    code unit by code unit, a proper prefix before its extensions. *)
Fixpoint str_leb (a b : jsstring) : bool :=
  match a, b with
  | [], _ => true
  | _ :: _, [] => false
  | x :: a', y :: b' =>
      if x <? y then true
      else if y <? x then false
      else str_leb a' b'
  end.

Definition str_le (a b : jsstring) : Prop := str_leb a b = true.

#[global] Instance str_le_dec a b : Decision (str_le a b).
Proof. unfold str_le. apply _. Defined.

(** [arr.sort()] without a comparator. *)
Definition sort (arr : list jsstring) : list jsstring :=
  merge_sort str_le arr.

(** The two halves of a surrogate pair. *)
Definition is_high_surrogate (c : N) : bool := (55296 <=? c) && (c <=? 56319).
Definition is_low_surrogate (c : N) : bool := (56320 <=? c) && (c <=? 57343).

(** [s.isWellFormed()]: no surrogate stands alone.  [after_high] tells that
    the previous code unit was a high surrogate in want of its low one. *)
Fixpoint well_formed_from (after_high : bool) (s : jsstring) : bool :=
  match s with
  | [] => negb after_high
  | c :: s' =>
      if after_high then is_low_surrogate c && well_formed_from false s'
      else if is_high_surrogate c then well_formed_from true s'
      else negb (is_low_surrogate c) && well_formed_from false s'
  end.

Definition isWellFormed (s : jsstring) : bool := well_formed_from false s.

(** [s.toWellFormed()]: every lone surrogate becomes U+FFFD.  This is also
    what the UTF-8 encoding of a string does, which has no encoding for a
    lone surrogate.  [high] is the high surrogate read last, while it is
    not known whether its low one follows. *)
Fixpoint to_well_formed_from (high : option N) (s : jsstring) : jsstring :=
  match s with
  | [] => match high with Some _ => [65533] | None => [] end
  | c :: s' =>
      match high with
      | Some h =>
          if is_low_surrogate c then h :: c :: to_well_formed_from None s'
          else if is_high_surrogate c
               then 65533 :: to_well_formed_from (Some c) s'
               else 65533 :: c :: to_well_formed_from None s'
      | None =>
          if is_high_surrogate c then to_well_formed_from (Some c) s'
          else (if is_low_surrogate c then 65533 else c)
               :: to_well_formed_from None s'
      end
  end.

Definition toWellFormed (s : jsstring) : jsstring := to_well_formed_from None s.

End JS.

(** ** Paths

    The engine is deployed in a Linux container, so [path] is the POSIX
    flavour of the module: [/] is the only separator.  An absolute path is
    kept as the sequence of its segments from the root. *)

Module Path.

Definition path := list jsstring.

(** What the segments of a relative path do to an absolute one, which is
    kept innermost segment first: an empty segment and [.] are skipped,
    [..] leaves the innermost directory (and stays at the root), any other
    segment enters it. *)
Fixpoint resolve (stack : list jsstring) (segments : list jsstring)
    : list jsstring :=
  match segments with
  | [] => stack
  | seg :: rest =>
      if bool_decide (seg = []) || bool_decide (seg = js ".")
      then resolve stack rest
      else if bool_decide (seg = js "..") then resolve (tail stack) rest
      else resolve (seg :: stack) rest
  end.

(** [path.join(base, rel)] for an absolute [base]: the two are joined by a
    separator and the result is normalized. *)
Definition join (base : path) (rel : jsstring) : path :=
  rev (resolve (rev base) (JS.split 47 rel)).

End Path.


(** ** Values thrown, queries, console messages and events *)

(** What a rejected promise of a collaborator carries: the error code of the
    database driver or of [fs.promises]. *)
Inductive error :=
| DbError (code : string)
| FsError (code : string).

(** One row of [schema_migrations].  The list of rows is kept in insertion
    order, which is the order of the [SERIAL] column [id]; [executed_at] is
    filled by the server and is not read by the engine.  [checksum] is a
    nullable column. *)
Record LedgerRow := {
  row_version : jsstring;
  row_name : jsstring;
  row_checksum : option jsstring;
  row_execution_time : Z
}.

(** The four call sites of [dbConnection.query]. *)
Inductive query :=
| CreateMigrationsTable
| SelectVersions
| Statement (sql : jsstring)
| InsertMigration (version name : jsstring) (executionTime : Z).

(** The lines the engine writes to the console, with their parameters. *)
Inductive message :=
| MsgInitialized
| MsgInitFailed (e : error)
| MsgNoDirectory
| MsgExecuted (version name : jsstring) (executionTime : Z)
| MsgMigrationFailed (version name : jsstring) (e : error)
| MsgFound (n : nat)
| MsgAlreadyExecuted (n : nat)
| MsgRunning (version name : jsstring)
| MsgSkipping (version : jsstring)
| MsgUpToDate
| MsgSuccess (executedCount : nat)
| MsgFailed (e : error)
| MsgCreated (fileName : jsstring)
| MsgProvideName
| MsgUsage (line : nat)
| MsgRejection (e : error).

(** Every call that leaves the engine, in the order it is made. *)
Inductive event :=
| Connect
| Close
| Query (q : query)
| Readdir
| Mkdir
| ReadFile (file : jsstring)
| WriteFile (filePath : Path.path) (content : jsstring)
| ReadClock
| ConsoleLog (m : message)
| ConsoleError (m : message).

(** A reading of the clock: [Date.now()] is [epoch_ms], [toISOString] prints
    the UTC fields. *)
Record DateTime := {
  epoch_ms : Z;
  year : Z;
  month : N;
  day : N;
  hours : N;
  minutes : N;
  seconds : N;
  milliseconds : N
}.

(** The migrations directory as [fs.readdir] sees it. *)
Inductive directory :=
| Absent
| Unreadable (e : error)
| Listing (entries : list jsstring).

(** ** A state and error monad for [async] code

    The engine awaits every promise at once, so an [async] function is a
    sequential computation that either resolves to a value or rejects with
    the value thrown. *)

Definition M (S A : Type) : Type := S -> S * (error + A).

Definition ret {S A} (a : A) : M S A := fun w => (w, inr a).

Definition throw {S A} (e : error) : M S A := fun w => (w, inl e).

Definition bind {S A B} (c : M S A) (k : A -> M S B) : M S B :=
  fun w =>
    match c w with
    | (w1, inl e) => (w1, inl e)
    | (w1, inr a) => k a w1
    end.

(** [try { c } catch (error) { h error }] *)
Definition try_catch {S A} (c : M S A) (h : error -> M S A) : M S A :=
  fun w =>
    match c w with
    | (w1, inl e) => h e w1
    | (w1, inr a) => (w1, inr a)
    end.

(** [try { c } finally { f }]: [f] runs on both completions; when [f] itself
    throws, its error replaces the completion of [c]. *)
Definition finally {S A} (c : M S A) (f : M S unit) : M S A :=
  fun w =>
    match c w with
    | (w1, r) =>
        match f w1 with
        | (w2, inl e) => (w2, inl e)
        | (w2, inr _) => (w2, r)
        end
    end.

Declare Scope async_scope.
Delimit Scope async_scope with async.
Notation "x <- c ;; k" := (bind c (fun x => k))
  (at level 100, c at next level, right associativity) : async_scope.
Notation "c ;;; k" := (bind c (fun _ => k))
  (at level 100, right associativity) : async_scope.

(** [for (const x of xs) { body x }] *)
Fixpoint for_of {S A} (xs : list A) (body : A -> M S unit) : M S unit :=
  match xs with
  | [] => ret tt
  | x :: rest => bind (body x) (fun _ => for_of rest body)
  end.

(** ** The world the engine runs in *)

(** The migrations directory and the files in it.  [dirname] is
    [__dirname], the directory [migrate.js] is installed in.  [dir] is the
    migrations directory and [read_result] is what [fs.readFile] settles
    with for each of its entries: the names [fs.readdir] returns are single
    segments other than [.] and [..], so [path.join(this.migrationsPath,
    file)] is the entry [file] of the directory.  [mkdir_fault] is the
    rejection of [fs.mkdir], if any, and [write_fault] the rejection of
    [fs.writeFile] for each path, if any (no permission, a missing
    directory on the way, a name the system refuses). *)
Record FileSystem := {
  dirname : Path.path;
  dir : directory;
  mkdir_fault : option error;
  read_result : jsstring -> error + jsstring;
  write_fault : Path.path -> option error
}.

(** [this.migrationsPath], which the constructor sets to
    [path.join(__dirname, 'migrations')]. *)
Definition migrationsPath (f : FileSystem) : Path.path :=
  Path.join (dirname f) (js "migrations").

(** The entry of the directory [base] that the path [p] addresses, if it
    addresses one: [p] is [base] followed by one segment. *)
Definition entry_of (base p : Path.path) : option jsstring :=
  match drop (length base) p with
  | [file] => if bool_decide (take (length base) p = base) then Some file
              else None
  | _ => None
  end.

(** The rejection of [fs.writeFile] for a path: a file cannot be created in
    the migrations directory while that directory does not exist. *)
Definition write_error (f : FileSystem) (p : Path.path) : option error :=
  match entry_of (migrationsPath f) p, dir f with
  | Some _, Absent => Some (FsError "ENOENT")
  | _, _ => write_fault f p
  end.

(** The database behind [dbConnection].  [ledger] is the table
    [schema_migrations] ([None] while it does not exist); [schema] is
    everything else in the database, which is all that the statements of a
    change script act on.  [connect_fault] and [close_fault] are the
    rejections of [connect()] and [close()], if any; [create_fault] and
    [select_fault] are the rejections of the [CREATE TABLE IF NOT EXISTS]
    and of the [SELECT] on the ledger table, if any, for a reason that is
    not the table itself (a role without the privilege, a server that went
    away). *)
Record Database (Schema : Type) := {
  connect_fault : option error;
  create_fault : option error;
  select_fault : option error;
  close_fault : option error;
  ledger : option (list LedgerRow);
  schema : Schema
}.
Arguments connect_fault {Schema} _.
Arguments create_fault {Schema} _.
Arguments select_fault {Schema} _.
Arguments close_fault {Schema} _.
Arguments ledger {Schema} _.
Arguments schema {Schema} _.

Record World (Schema : Type) := {
  fs : FileSystem;
  db : Database Schema;
  clock_reads : nat;
  trace : list event
}.
Arguments fs {Schema} _.
Arguments db {Schema} _.
Arguments clock_reads {Schema} _.
Arguments trace {Schema} _.

Local Open Scope async_scope.

Section Engine.

(** The database outside the ledger table, and how it answers one statement
    of a change script: the new contents, or the error the driver rejects
    with (the statement then changes nothing). *)
Variable Schema : Type.
Variable exec : jsstring -> Schema -> error + Schema.

(** The column constraints of [schema_migrations] other than
    [UNIQUE (version)] (the widths of [VARCHAR(255)] and [INTEGER]), as the
    server enforces them on a new row. *)
Variable row_check : LedgerRow -> option error.

(** The [n]-th reading of the system clock. *)
Variable clock : nat -> DateTime.

Local Abbreviation World := (World Schema).
Local Abbreviation Database := (Database Schema).
Local Abbreviation async := (M World).

Definition set_fs (f : FileSystem) (w : World) : World :=
  {| fs := f; db := db w; clock_reads := clock_reads w; trace := trace w |}.

Definition set_db (d : Database) (w : World) : World :=
  {| fs := fs w; db := d; clock_reads := clock_reads w; trace := trace w |}.

Definition set_ledger (l : option (list LedgerRow)) (d : Database) : Database :=
  {| connect_fault := connect_fault d; create_fault := create_fault d;
     select_fault := select_fault d; close_fault := close_fault d;
     ledger := l; schema := schema d |}.

Definition set_schema (s : Schema) (d : Database) : Database :=
  {| connect_fault := connect_fault d; create_fault := create_fault d;
     select_fault := select_fault d; close_fault := close_fault d;
     ledger := ledger d; schema := s |}.

(** *** Collaborators *)

Definition emit (ev : event) : async unit :=
  fun w =>
    ({| fs := fs w; db := db w; clock_reads := clock_reads w;
        trace := trace w ++ [ev] |}, inr tt).

Definition console_log (m : message) : async unit := emit (ConsoleLog m).
Definition console_error (m : message) : async unit := emit (ConsoleError m).

(** [new Date()] *)
Definition new_Date : async DateTime :=
  emit ReadClock ;;;
  fun w =>
    ({| fs := fs w; db := db w; clock_reads := S (clock_reads w);
        trace := trace w |}, inr (clock (clock_reads w))).

(** [Date.now()] *)
Definition Date_now : async Z := d <- new_Date ;; ret (epoch_ms d).

(** [fs.readdir(this.migrationsPath)] *)
Definition readdir : async (list jsstring) :=
  emit Readdir ;;;
  fun w =>
    match dir (fs w) with
    | Absent => (w, inl (FsError "ENOENT"))
    | Unreadable e => (w, inl e)
    | Listing entries => (w, inr entries)
    end.

(** [fs.mkdir(this.migrationsPath, { recursive: true })]: creates the
    directory when it is absent and resolves without a change when it is
    there. *)
Definition mkdir : async unit :=
  emit Mkdir ;;;
  fun w =>
    match mkdir_fault (fs w) with
    | Some e => (w, inl e)
    | None =>
        match dir (fs w) with
        | Absent =>
            (set_fs {| dirname := dirname (fs w); dir := Listing [];
                       mkdir_fault := mkdir_fault (fs w);
                       read_result := read_result (fs w);
                       write_fault := write_fault (fs w) |} w, inr tt)
        | _ => (w, inr tt)
        end
    end.

(** [fs.readFile(filePath, 'utf8')] *)
Definition readFile (file : jsstring) : async jsstring :=
  emit (ReadFile file) ;;;
  fun w => (w, read_result (fs w) file).

(** The file system after the entry [file] of the migrations directory was
    written: the entry is there, once, and holds [content]. *)
Definition written (file content : jsstring) (f : FileSystem) : FileSystem :=
  {| dirname := dirname f;
     dir := match dir f with
            | Listing entries =>
                if bool_decide (file ∈ entries) then Listing entries
                else Listing (entries ++ [file])
            | d => d
            end;
     mkdir_fault := mkdir_fault f;
     read_result := fun g =>
       if bool_decide (g = file) then inr content else read_result f g;
     write_fault := write_fault f |}.

(** [fs.writeFile(filePath, content)]: the file is created or replaced.
    The path and the content reach the file system encoded in UTF-8, in
    which a lone surrogate is replaced by U+FFFD.  A path outside the
    migrations directory, or below one of its subdirectories, changes
    nothing of what the engine reads. *)
Definition writeFile (filePath : Path.path) (content : jsstring) : async unit :=
  emit (WriteFile filePath content) ;;;
  fun w =>
    match write_error (fs w) filePath with
    | Some e => (w, inl e)
    | None =>
        match entry_of (migrationsPath (fs w)) filePath with
        | Some file =>
            (set_fs (written (JS.toWellFormed file) (JS.toWellFormed content)
                       (fs w)) w, inr tt)
        | None => (w, inr tt)
        end
    end.

(** Modelled from the spec: [dbConnection.connect()] of [./connection], a
    module that is not among the sources.  It establishes the connection or
    rejects; nothing else of it is visible to the engine. *)
Definition connect : async unit :=
  emit Connect ;;;
  fun w =>
    match connect_fault (db w) with
    | Some e => (w, inl e)
    | None => (w, inr tt)
    end.

(** Modelled from the spec: [dbConnection.close()] of [./connection], which
    releases the connection or rejects. *)
Definition close : async unit :=
  emit Close ;;;
  fun w =>
    match close_fault (db w) with
    | Some e => (w, inl e)
    | None => (w, inr tt)
    end.

Definition versions_of (rows : list LedgerRow) : list jsstring :=
  map row_version rows.

(** Modelled from the spec: [dbConnection.query(text, params)] of
    [./connection], answered by the database for each of the four texts of
    [migrate.js] and resolving to the [version] column of the result rows.
    The table is created if absent and left alone otherwise, unless the
    server rejects the statement; the applied versions are listed in
    insertion order, unless the server rejects the query; a new row is
    refused when its version is there already ([UNIQUE]) or when
    [row_check] refuses it.  A rejected query changes nothing.  The
    [INSERT] names the columns [version], [name] and [execution_time] only,
    so [checksum] takes its default, [NULL].  The error codes are those of
    PostgreSQL: [42P01] undefined table, [23505] unique violation. *)
Definition run_query (q : query) (d : Database) : Database * (error + list jsstring) :=
  match q with
  | CreateMigrationsTable =>
      match create_fault d with
      | Some e => (d, inl e)
      | None =>
          match ledger d with
          | None => (set_ledger (Some []) d, inr [])
          | Some _ => (d, inr [])
          end
      end
  | SelectVersions =>
      match select_fault d with
      | Some e => (d, inl e)
      | None =>
          match ledger d with
          | None => (d, inl (DbError "42P01"))
          | Some rows => (d, inr (versions_of rows))
          end
      end
  | Statement sql =>
      match exec sql (schema d) with
      | inl e => (d, inl e)
      | inr s => (set_schema s d, inr [])
      end
  | InsertMigration version name executionTime =>
      let row := {| row_version := version; row_name := name;
                    row_checksum := None;
                    row_execution_time := executionTime |} in
      match ledger d with
      | None => (d, inl (DbError "42P01"))
      | Some rows =>
          if bool_decide (version ∈ versions_of rows)
          then (d, inl (DbError "23505"))
          else match row_check row with
               | Some e => (d, inl e)
               | None => (set_ledger (Some (rows ++ [row])) d, inr [])
               end
      end
  end.

Definition db_query (q : query) : async (list jsstring) :=
  emit (Query q) ;;;
  fun w =>
    match run_query q (db w) with
    | (d, r) => (set_db d w, r)
    end.

(** *** [DatabaseMigrator] *)

Definition createMigrationsTable : async unit :=
  db_query CreateMigrationsTable ;;; ret tt.

Definition initialize : async unit :=
  try_catch
    (connect ;;;
     createMigrationsTable ;;;
     console_log MsgInitialized)
    (fun error =>
       console_error (MsgInitFailed error) ;;;
       throw error).

Definition getExecutedMigrations : async (list jsstring) :=
  db_query SelectVersions.

Definition getMigrationFiles : async (list jsstring) :=
  try_catch
    (files <- readdir ;;
     ret (JS.sort (List.filter (JS.endsWith (js ".sql")) files)))
    (fun _ =>
       console_log MsgNoDirectory ;;;
       mkdir ;;;
       ret []).

(** [sqlContent.split(';').map(stmt => stmt.trim()).filter(stmt => stmt.length > 0)] *)
Definition statements_of (sqlContent : jsstring) : list jsstring :=
  List.filter (fun stmt => (0 <? length stmt)%nat)
    (map JS.trim (JS.split 59 sqlContent)).

(** A string is truthy when it is not empty. *)
Definition truthy (s : jsstring) : bool :=
  match s with [] => false | _ => true end.

Definition runMigration (filePath version name : jsstring) : async unit :=
  startTime <- Date_now ;;
  try_catch
    (sqlContent <- readFile filePath ;;
     let statements := statements_of sqlContent in
     for_of statements
       (fun statement =>
          if truthy (JS.trim statement)
          then db_query (Statement statement) ;;; ret tt
          else ret tt) ;;;
     now <- Date_now ;;
     let executionTime := (now - startTime)%Z in
     db_query (InsertMigration version name executionTime) ;;;
     console_log (MsgExecuted version name executionTime))
    (fun error =>
       console_error (MsgMigrationFailed version name error) ;;;
       throw error).

(** [file.replace('.sql', '')] *)
Definition version_of (file : jsstring) : jsstring :=
  JS.replace (js ".sql") [] file.

(** [file.replace('.sql', '').replace(/_/g, ' ')] *)
Definition name_of (file : jsstring) : jsstring :=
  JS.replace_char_g 95 (js " ") (JS.replace (js ".sql") [] file).

(** The loop [for (const file of migrationFiles)] of [migrate], with the
    counter [executedCount] it maintains. *)
Fixpoint migrate_files (executedMigrations files : list jsstring)
    (executedCount : nat) : async nat :=
  match files with
  | [] => ret executedCount
  | file :: rest =>
      let version := version_of file in
      let name := name_of file in
      if negb (JS.includes version executedMigrations) then
        console_log (MsgRunning version name) ;;;
        runMigration file version name ;;;
        migrate_files executedMigrations rest (S executedCount)
      else
        console_log (MsgSkipping version) ;;;
        migrate_files executedMigrations rest executedCount
  end.

Definition migrate : async unit :=
  finally
    (try_catch
       (initialize ;;;
        executedMigrations <- getExecutedMigrations ;;
        migrationFiles <- getMigrationFiles ;;
        console_log (MsgFound (length migrationFiles)) ;;;
        console_log (MsgAlreadyExecuted (length executedMigrations)) ;;;
        executedCount <- migrate_files executedMigrations migrationFiles 0 ;;
        if (executedCount =? 0)%nat
        then console_log MsgUpToDate
        else console_log (MsgSuccess executedCount))
       (fun error =>
          console_error (MsgFailed error) ;;;
          throw error))
    close.

(** [n] printed in decimal on exactly [width] digits, zero padded. *)
Fixpoint pad (width : nat) (n : N) : jsstring :=
  match width with
  | O => []
  | S width' => pad width' (n / 10) ++ [48 + n mod 10]
  end.

(** [Date.prototype.toISOString]: [YYYY-MM-DDTHH:mm:ss.sssZ], the year on
    four digits from 0 to 9999 and on six signed digits otherwise. *)
Definition toISOString (d : DateTime) : jsstring :=
  (if ((0 <=? year d) && (year d <=? 9999))%Z
   then pad 4 (Z.to_N (year d))
   else (if (year d <? 0)%Z then js "-" else js "+")
        ++ pad 6 (Z.to_N (Z.abs (year d))))
  ++ js "-" ++ pad 2 (month d) ++ js "-" ++ pad 2 (day d)
  ++ js "T" ++ pad 2 (hours d) ++ js ":" ++ pad 2 (minutes d)
  ++ js ":" ++ pad 2 (seconds d) ++ js "." ++ pad 3 (milliseconds d)
  ++ js "Z".

(** The template literal of [createMigration]. *)
Definition template_of (name created : jsstring) : jsstring :=
  js "-- Migration: " ++ name ++ [10]
  ++ js "-- Created: " ++ created ++ [10]
  ++ js "-- Description: Add your SQL statements here" ++ [10; 10]
  ++ js "-- Example:" ++ [10]
  ++ js "-- CREATE TABLE IF NOT EXISTS example_table (" ++ [10]
  ++ js "--     id SERIAL PRIMARY KEY," ++ [10]
  ++ js "--     name VARCHAR(255) NOT NULL," ++ [10]
  ++ js "--     created_at TIMESTAMP DEFAULT CURRENT_TIMESTAMP" ++ [10]
  ++ js "-- );" ++ [10; 10]
  ++ js "-- Add your migration SQL here" ++ [10].

(** Reading the field [this.migrationsPath]. *)
Definition this_migrationsPath : async Path.path :=
  fun w => (w, inr (migrationsPath (fs w))).

Definition createMigration (name : jsstring) : async jsstring :=
  d <- new_Date ;;
  let timestamp := JS.slice0 14 (JS.remove_non_digits (toISOString d)) in
  let fileName :=
    timestamp ++ js "_" ++ JS.replace_space_runs (js "_") name ++ js ".sql" in
  base <- this_migrationsPath ;;
  let filePath := Path.join base fileName in
  created <- new_Date ;;
  let template := template_of name (toISOString created) in
  writeFile filePath template ;;;
  console_log (MsgCreated fileName) ;;;
  ret fileName.

(** *** Command line ([require.main === module]) *)

(** How the script leaves the dispatch: by [process.exit(code)], or by
    running off its end, after which the process ends with the exit code it
    has by default, 0. *)
Inductive outcome :=
| Exit (code : Z)
| Returned.

Definition exit_code (o : outcome) : Z :=
  match o with
  | Exit code => code
  | Returned => 0%Z
  end.

(** [promise.catch(console.error)] *)
Definition catch_console_error {A} (c : async A) (w : World) : World :=
  match c w with
  | (w1, inl e) => fst (console_error (MsgRejection e) w1)
  | (w1, inr _) => w1
  end.

(** [command] is [process.argv[2]] and [name] is [process.argv[3]]; [None]
    stands for [undefined]. *)
Definition main (command name : option jsstring) (w : World) : World * outcome :=
  if bool_decide (command = Some (js "migrate")) then
    (catch_console_error migrate w, Returned)
  else if bool_decide (command = Some (js "create")) then
    match name with
    | None | Some [] =>
        (fst (console_error MsgProvideName w), Exit 1)
    | Some name => (catch_console_error (createMigration name) w, Returned)
    end
  else
    (fst ((console_log (MsgUsage 0) ;;;
           console_log (MsgUsage 1) ;;;
           console_log (MsgUsage 2)) w), Exit 1).

(** *** Notions used to state the properties *)

(** The world [w] after the calls [evs], with database [d] and [k] clock
    readings made. *)
Definition after (w : World) (d : Database) (k : nat) (evs : list event) : World :=
  {| fs := fs w; db := d; clock_reads := k; trace := trace w ++ evs |}.

(** The world [w] with the file [file] edited: reading it now settles with
    [r]. *)
Definition edit_file (file : jsstring) (r : error + jsstring) (w : World) : World :=
  set_fs {| dirname := dirname (fs w); dir := dir (fs w);
            mkdir_fault := mkdir_fault (fs w);
            read_result := fun f =>
              if bool_decide (f = file) then r else read_result (fs w) f;
            write_fault := write_fault (fs w) |} w.

(** Whether the loop of [runMigration] sends the statement to the database. *)
Definition sent (statement : jsstring) : bool := truthy (JS.trim statement).

(** The statements of a script run in order from the database contents [s]:
    the contents reached, and the error of the first statement the database
    rejects, if there is one.  Nothing is undone on an error. *)
Fixpoint exec_all (statements : list jsstring) (s : Schema) : Schema * option error :=
  match statements with
  | [] => (s, None)
  | statement :: rest =>
      if sent statement then
        match exec statement s with
        | inl e => (s, Some e)
        | inr s' => exec_all rest s'
        end
      else exec_all rest s
  end.

(** The statements that are sent in that run, up to and including the one
    that is rejected. *)
Fixpoint attempted (statements : list jsstring) (s : Schema) : list jsstring :=
  match statements with
  | [] => []
  | statement :: rest =>
      if sent statement then
        statement ::
        match exec statement s with
        | inl _ => []
        | inr s' => attempted rest s'
        end
      else attempted rest s
  end.

(** The database accepts the statements one after the other, each on the
    contents the one before it left: [accepts s statements s'] when that
    leads from the contents [s] to the contents [s']. *)
Inductive accepts : Schema -> list jsstring -> Schema -> Prop :=
| accepts_nil s : accepts s [] s
| accepts_cons s statement s1 rest s' :
    exec statement s = inr s1 ->
    accepts s1 rest s' ->
    accepts s (statement :: rest) s'.

(** The steps of [migrate] that precede its loop: initialization, then the
    applied versions and the available files. *)
Definition diffing : async (list jsstring * list jsstring) :=
  initialize ;;;
  executedMigrations <- getExecutedMigrations ;;
  migrationFiles <- getMigrationFiles ;;
  console_log (MsgFound (length migrationFiles)) ;;;
  console_log (MsgAlreadyExecuted (length executedMigrations)) ;;;
  ret (executedMigrations, migrationFiles).

(** The test of the loop of [migrate]: the file's version is not among the
    applied ones. *)
Definition pending (executedMigrations : list jsstring) (file : jsstring) : bool :=
  negb (JS.includes (version_of file) executedMigrations).

End Engine.

Arguments set_fs {Schema} _ _.
Arguments set_db {Schema} _ _.
Arguments set_ledger {Schema} _ _.
Arguments set_schema {Schema} _ _.
Arguments emit {Schema} _ _.
Arguments console_log {Schema} _ _.
Arguments console_error {Schema} _ _.
Arguments readdir {Schema} _.
Arguments mkdir {Schema} _.
Arguments readFile {Schema} _ _.
Arguments writeFile {Schema} _ _ _.
Arguments this_migrationsPath {Schema} _.
Arguments connect {Schema} _.
Arguments close {Schema} _.
Arguments new_Date {Schema} _ _.
Arguments Date_now {Schema} _ _.
Arguments run_query {Schema} _ _ _ _.
Arguments db_query {Schema} _ _ _ _.
Arguments createMigrationsTable {Schema} _ _ _.
Arguments initialize {Schema} _ _ _.
Arguments getExecutedMigrations {Schema} _ _ _.
Arguments getMigrationFiles {Schema} _.
Arguments runMigration {Schema} _ _ _ _ _ _ _.
Arguments migrate_files {Schema} _ _ _ _ _ _ _.
Arguments migrate {Schema} _ _ _ _.
Arguments createMigration {Schema} _ _ _.
Arguments catch_console_error {Schema A} _ _.
Arguments main {Schema} _ _ _ _ _ _.
Arguments after {Schema} _ _ _ _.
Arguments edit_file {Schema} _ _ _.
Arguments exec_all {Schema} _ _ _.
Arguments attempted {Schema} _ _ _.
Arguments diffing {Schema} _ _ _.
Arguments accepts {Schema} _ _ _ _.

(** The files a sequence of calls loads, in order. *)
Definition loaded (evs : list event) : list jsstring :=
  omap (fun ev => match ev with ReadFile file => Some file | _ => None end) evs.

(** The row the [INSERT] of [runMigration] adds. *)
Definition row_of (version name : jsstring) (executionTime : Z) : LedgerRow :=
  {| row_version := version; row_name := name; row_checksum := None;
     row_execution_time := executionTime |}.

(** The applied versions a run starts from: those of the ledger, none while
    the table does not exist. *)
Definition applied_versions {Schema} (w : World Schema) : list jsstring :=
  match ledger (db w) with
  | Some rows => versions_of rows
  | None => []
  end.


(** The rows of the ledger, none while the table does not exist. *)
Definition ledger_rows {Schema} (w : World Schema) : list LedgerRow :=
  match ledger (db w) with
  | Some rows => rows
  | None => []
  end.

(** The files [getMigrationFiles] returns when the listing succeeds, and
    none otherwise. *)
Definition available_files {Schema} (w : World Schema) : list jsstring :=
  match dir (fs w) with
  | Listing entries => JS.sort (List.filter (JS.endsWith (js ".sql")) entries)
  | _ => []
  end.

(** The ledger after [CREATE TABLE IF NOT EXISTS]. *)
Definition ensured {Schema} (d : Database Schema) : Database Schema :=
  match ledger d with
  | None => set_ledger (Some []) d
  | Some _ => d
  end.

(** The error that stops a run before it lists the directory, if any, with
    the calls made until then: the connection is refused; the ledger table
    cannot be ensured; the applied versions cannot be read. *)
Definition early_failure {Schema} (w : World Schema)
    : option (Database Schema * list event * error) :=
  match connect_fault (db w) with
  | Some e => Some (db w, [Connect; ConsoleError (MsgInitFailed e)], e)
  | None =>
      match create_fault (db w) with
      | Some e =>
          Some (db w,
                [Connect; Query CreateMigrationsTable;
                 ConsoleError (MsgInitFailed e)], e)
      | None =>
          match select_fault (db w) with
          | Some e =>
              Some (ensured (db w),
                    [Connect; Query CreateMigrationsTable;
                     ConsoleLog MsgInitialized; Query SelectVersions], e)
          | None => None
          end
      end
  end.

(** The calls a run of [migrate] can make before it closes the connection,
    when [executed] are the applied versions and [files] the available
    files: the calls about a script are made for pending files only. *)
Inductive run_event (executed files : list jsstring) : event -> Prop :=
| re_connect : run_event executed files Connect
| re_create : run_event executed files (Query CreateMigrationsTable)
| re_select : run_event executed files (Query SelectVersions)
| re_readdir : run_event executed files Readdir
| re_mkdir : run_event executed files Mkdir
| re_clock : run_event executed files ReadClock
| re_error m : run_event executed files (ConsoleError m)
| re_log m :
    (forall version name, m <> MsgRunning version name) ->
    run_event executed files (ConsoleLog m)
| re_running file :
    file ∈ files -> JS.includes (version_of file) executed = false ->
    run_event executed files
      (ConsoleLog (MsgRunning (version_of file) (name_of file)))
| re_read file :
    file ∈ files -> JS.includes (version_of file) executed = false ->
    run_event executed files (ReadFile file)
| re_statement file sql :
    file ∈ files -> JS.includes (version_of file) executed = false ->
    run_event executed files (Query (Statement sql))
| re_insert file executionTime :
    file ∈ files -> JS.includes (version_of file) executed = false ->
    run_event executed files
      (Query (InsertMigration (version_of file) (name_of file) executionTime)).

(** A call that leaves the script [file] alone: it does not load the file,
    does not announce its version as running and does not record it. *)
Definition untouched (file : jsstring) (ev : event) : Prop :=
  match ev with
  | ReadFile f => f <> file
  | ConsoleLog (MsgRunning version _) => version <> version_of file
  | Query (InsertMigration version _ _) => version <> version_of file
  | _ => True
  end.

(** A call that applies nothing: no file is loaded, no statement of a
    script and no [INSERT] is sent. *)
Definition applies_nothing (ev : event) : Prop :=
  match ev with
  | ReadFile _ | Query (Statement _) | Query (InsertMigration _ _ _) => False
  | ConsoleLog (MsgRunning _ _) => False
  | _ => True
  end.



(** The version of an authored file as the spec words it: the clock reading
    down to the second, on fourteen digits. *)
Definition timestamp_of (d : DateTime) : jsstring :=
  pad 4 (Z.to_N (year d)) ++ pad 2 (month d) ++ pad 2 (day d)
  ++ pad 2 (hours d) ++ pad 2 (minutes d) ++ pad 2 (seconds d).

(** The name recovered from an authored file name as the spec words it: the
    name [migrate] derives from the file, without the version prefix (the
    fourteen digits and the separator after them). *)
Definition recovered_name (fileName : jsstring) : jsstring :=
  drop 15 (name_of fileName).

(** ** The application of [src/index.js]

    The start of the HTTP server and its route [POST /db/migrate], the two
    callers of [migrate].  The calls of the server are recorded together
    with the calls of the engine made on its behalf, in one sequence. *)

(** The lines [index.js] writes to the console at start. *)
Inductive app_message :=
| AppRunningMigrations
| AppServerRunning
| AppHealthCheckAt
| AppDatabaseStatusAt
| AppStartFailed (e : error).

Inductive app_event :=
| Engine (ev : event)
| AppLog (m : app_message)
| AppError (m : app_message)
| Listen.

(** What [app.listen(PORT, callback)] of Express does, on top of
    [server.listen] of Node: the port is bound and the callback is called;
    or the call throws, as for a port out of range; or the call returns and
    the server emits [error] afterwards, as for a port that is in use.  In
    the last case Express 5 hands the error to the callback and Express 4
    does not call it: [calls_back] tells which. *)
Inductive listen_answer :=
| Bound
| Thrown (e : error)
| Emitted (e : error) (calls_back : bool).

Record App (Schema : Type) := {
  world : World Schema;
  port : listen_answer;
  app_trace : list app_event
}.
Arguments world {Schema} _.
Arguments port {Schema} _.
Arguments app_trace {Schema} _.

(** How [startApp] leaves: the server is listening; or the process was
    ended by [process.exit(code)]; or [startApp] returned and the server
    emitted [error] instead of listening, an event that [index.js] has no
    handler for and that the [catch] of [startApp] does not see. *)
Inductive startup :=
| Serving
| Exited (code : Z)
| NotListening (e : error).

(** The body of a JSON response: [{ message }] or [{ error: error.message }]. *)
Inductive body :=
| MessageBody (text : string)
| ErrorBody (e : error).

Record reply := {
  status : N;
  payload : body
}.

(** The lines of the callback given to [app.listen]. *)
Definition callback_lines : list app_event :=
  [AppLog AppServerRunning; AppLog AppHealthCheckAt;
   AppLog AppDatabaseStatusAt].

Section Application.

Variable Schema : Type.
Variable exec : jsstring -> Schema -> error + Schema.
Variable row_check : LedgerRow -> option error.
Variable clock : nat -> DateTime.

(** A call into the engine or into [dbConnection]: the calls it makes are
    appended to the sequence of the application. *)
Definition engine {A} (c : M (World Schema) A) : M (App Schema) A :=
  fun a =>
    match c (world a) with
    | (w, r) =>
        ({| world := w;
            port := port a;
            app_trace :=
              app_trace a
              ++ map Engine (drop (length (trace (world a))) (trace w)) |},
         r)
    end.

Definition app_emit (ev : app_event) : M (App Schema) unit :=
  fun a =>
    ({| world := world a; port := port a;
        app_trace := app_trace a ++ [ev] |}, inr tt).

(** The callback given to [app.listen]; it takes no argument. *)
Definition listen_callback : M (App Schema) unit :=
  app_emit (AppLog AppServerRunning) ;;;
  app_emit (AppLog AppHealthCheckAt) ;;;
  app_emit (AppLog AppDatabaseStatusAt).

(** [app.listen(PORT, callback)], with what it leaves [startApp] in when it
    does not throw. *)
Definition app_listen : M (App Schema) startup :=
  app_emit Listen ;;;
  fun a =>
    match port a with
    | Bound => (listen_callback ;;; ret Serving) a
    | Thrown e => (a, inl e)
    | Emitted e calls_back =>
        ((if calls_back then listen_callback else ret tt) ;;;
         ret (NotListening e)) a
    end.

(** [startApp]: the [catch] ends the process with [process.exit(1)]. *)
Definition startApp (a : App Schema) : App Schema * startup :=
  match
    (engine connect ;;;
     app_emit (AppLog AppRunningMigrations) ;;;
     engine (migrate exec row_check clock) ;;;
     app_listen) a
  with
  | (a1, inr how) => (a1, how)
  | (a1, inl error) =>
      (fst (app_emit (AppError (AppStartFailed error)) a1), Exited 1)
  end.

(** [app.post('/db/migrate', ...)]: [res.json] answers with status 200. *)
Definition post_db_migrate (a : App Schema) : App Schema * reply :=
  match engine (migrate exec row_check clock) a with
  | (a1, inr _) =>
      (a1, {| status := 200;
              payload := MessageBody "Migrations completed successfully" |})
  | (a1, inl error) =>
      (a1, {| status := 500; payload := ErrorBody error |})
  end.

End Application.

Arguments engine {Schema A} _ _.
Arguments app_emit {Schema} _ _.
Arguments listen_callback {Schema} _.
Arguments app_listen {Schema} _.
Arguments startApp {Schema} _ _ _ _.
Arguments post_db_migrate {Schema} _ _ _ _.


(** ** Example worlds *)

(** A database that keeps the statements it accepted, and rejects the
    statements that start with [FAIL] as syntax errors. *)
Definition Journal := list jsstring.

Definition journal_exec (sql : jsstring) (s : Journal) : error + Journal :=
  if JS.startsWith (js "FAIL") sql then inl (DbError "42601")
  else inr (s ++ [sql]).

Definition accept_row (row : LedgerRow) : option error := None.

(** A clock that shows 2024-01-02T03:04:05.006Z and advances its
    millisecond counter by 7 at each reading. *)
Definition demo_clock (n : nat) : DateTime :=
  {| epoch_ms := 1704164645006 + 7 * Z.of_nat n;
     year := 2024; month := 1; day := 2;
     hours := 3; minutes := 4; seconds := 5; milliseconds := 6 |}.

(** The files of a directory given with their contents. *)
Fixpoint contents (files : list (jsstring * jsstring)) (file : jsstring)
    : error + jsstring :=
  match files with
  | [] => inl (FsError "ENOENT")
  | (f, c) :: rest => if bool_decide (f = file) then inr c else contents rest file
  end.

Definition demo_world (d : directory) (faults : option error)
    (rows : option (list LedgerRow)) (files : list (jsstring * jsstring))
    : World Journal :=
  {| fs := {| dirname := [js "app"; js "src"; js "database"];
              dir := d; mkdir_fault := None;
              read_result := contents files;
              write_fault := fun _ => None |};
     db := {| connect_fault := faults; create_fault := None;
              select_fault := None; close_fault := None;
              ledger := rows; schema := [] |};
     clock_reads := 0; trace := [] |}.

(** Three scripts, listed out of order next to a file that is not a script. *)
Definition three_files : list jsstring :=
  [js "20240103000000_c.sql"; js "notes.txt"; js "20240101000000_a.sql";
   js "20240102000000_b.sql"].

Definition three_scripts : list (jsstring * jsstring) :=
  [(js "20240101000000_a.sql", js "CREATE TABLE a; INSERT INTO a VALUES (1);");
   (js "20240102000000_b.sql", js "CREATE TABLE b");
   (js "20240103000000_c.sql", js "CREATE TABLE c")].

(** The same, with a second script whose second statement is rejected. *)
Definition three_scripts_b_fails : list (jsstring * jsstring) :=
  [(js "20240101000000_a.sql", js "CREATE TABLE a; INSERT INTO a VALUES (1);");
   (js "20240102000000_b.sql", js "CREATE TABLE b; FAIL b; CREATE TABLE b2");
   (js "20240103000000_c.sql", js "CREATE TABLE c")].

Definition world_fresh : World Journal :=
  demo_world (Listing three_files) None None three_scripts.

Definition world_b_fails : World Journal :=
  demo_world (Listing three_files) None None three_scripts_b_fails.

(** One rejected script, under two different file names. *)
Definition world_x_fails : World Journal :=
  demo_world (Listing [js "x.sql"]) None None [(js "x.sql", js "FAIL")].

Definition world_y_fails : World Journal :=
  demo_world (Listing [js "y.sql"]) None None [(js "y.sql", js "FAIL")].

(** Two scripts, one named by a proper prefix of the other's name. *)
Definition world_prefix : World Journal :=
  demo_world (Listing [js "a.sql"; js "a-b.sql"]) None None
    [(js "a.sql", js "CREATE TABLE a"); (js "a-b.sql", js "CREATE TABLE ab")].

(** The first script is recorded already and its file was edited since. *)
Definition world_a_applied : World Journal :=
  demo_world (Listing three_files) None
    (Some [row_of (js "20240101000000_a") (js "20240101000000 a") 7])
    [(js "20240101000000_a.sql", js "DROP TABLE a");
     (js "20240102000000_b.sql", js "CREATE TABLE b");
     (js "20240103000000_c.sql", js "CREATE TABLE c")].


(** The database refuses the connection. *)
Definition world_offline : World Journal :=
  demo_world (Listing three_files) (Some (DbError "ECONNREFUSED")) None
    three_scripts.

(** Two listed files that derive the same version, [xy.sql]. *)
Definition world_collision : World Journal :=
  demo_world (Listing [js "xy.sql.sql"; js "x.sqly.sql"]) None None
    [(js "x.sqly.sql", js "CREATE TABLE first");
     (js "xy.sql.sql", js "CREATE TABLE second")].

(** The second script is listed but cannot be read any more. *)
Definition world_b_vanished : World Journal :=
  demo_world (Listing three_files) None None
    [(js "20240101000000_a.sql", js "CREATE TABLE a");
     (js "20240103000000_c.sql", js "CREATE TABLE c")].

(** The directory does not exist yet. *)
Definition world_absent : World Journal :=
  demo_world Absent None None [].

(** One script of white space and semicolons, and the ledger table. *)
Definition world_blank : World Journal :=
  demo_world (Listing [js "20240101000000_a.sql"]) None (Some [])
    [(js "20240101000000_a.sql", js " ; ;  ")].


(** The three scripts in a directory that may be listed and read but not
    written to. *)
Definition world_read_only : World Journal :=
  set_fs {| dirname := [js "app"; js "src"; js "database"];
            dir := Listing three_files;
            mkdir_fault := None;
            read_result := contents three_scripts;
            write_fault := fun _ => Some (FsError "EACCES") |}
    world_fresh.


(** A database that counts the rows of a table [t]: an [INSERT] adds one,
    and the query [SELECT 1 / (count(1) - 1) FROM t] divides by zero while
    the table holds exactly one row. *)
Definition count_exec (sql : jsstring) (rows_of_t : nat) : error + nat :=
  if bool_decide (sql = js "INSERT INTO t VALUES (1)") then inr (S rows_of_t)
  else if bool_decide (sql = js "SELECT 1 / (count(1) - 1) FROM t") then
    if (rows_of_t =? 1)%nat then inl (DbError "22012") else inr rows_of_t
  else inr rows_of_t.

(** One script made of these two statements, and an empty table [t]. *)
Definition world_retry : World nat :=
  {| fs := {| dirname := [js "app"; js "src"; js "database"];
              dir := Listing [js "20240101000000_a.sql"];
              mkdir_fault := None;
              read_result :=
                contents
                  [(js "20240101000000_a.sql",
                    js "INSERT INTO t VALUES (1); SELECT 1 / (count(1) - 1) FROM t")];
              write_fault := fun _ => None |};
     db := {| connect_fault := None; create_fault := None;
              select_fault := None; close_fault := None;
              ledger := None; schema := 0%nat |};
     clock_reads := 0; trace := [] |}.

(** A clock in the year 10000 that shows the second [s]. *)
Definition late_clock (s : N) (n : nat) : DateTime :=
  {| epoch_ms := 253402398245006 + 7 * Z.of_nat n;
     year := 10000; month := 1; day := 2;
     hours := 3; minutes := 4; seconds := s; milliseconds := 6 |}.

(** The application before it starts, on the three scripts. *)
Definition app_fresh : App Journal :=
  {| world := world_fresh; port := Bound; app_trace := [] |}.


(** The engine on these worlds. *)
Abbreviation demo_migrate := (migrate journal_exec accept_row demo_clock).
Abbreviation demo_diffing := (diffing journal_exec accept_row).
Abbreviation demo_migrate_files :=
  (migrate_files journal_exec accept_row demo_clock).

(** Replaces the literal [js s] by its code units. *)
Ltac js_lit s :=
  let v := eval vm_compute in (js s) in change (js s) with v in *.

(** * Properties *)

(** ** The built-ins on examples *)

Example sort_example :
  JS.sort [js "20240103000000_c.sql"; js "20240101000000_a.sql";
           js "20240102000000_b.sql"]
  = [js "20240101000000_a.sql"; js "20240102000000_b.sql";
     js "20240103000000_c.sql"].
Proof. vm_compute. reflexivity. Qed.

Example filter_example :
  List.filter (JS.endsWith (js ".sql")) three_files
  = [js "20240103000000_c.sql"; js "20240101000000_a.sql";
     js "20240102000000_b.sql"].
Proof. vm_compute. reflexivity. Qed.

Example replace_example :
  JS.replace (js ".sql") [] (js "20240101000000_a.sql") = js "20240101000000_a"
  /\ JS.replace (js ".sql") [] (js "readme") = js "readme".
Proof. split; vm_compute; reflexivity. Qed.

Example statements_example :
  statements_of (js " CREATE TABLE a ;; INSERT INTO a VALUES (1);  ")
  = [js "CREATE TABLE a"; js "INSERT INTO a VALUES (1)"].
Proof. vm_compute. reflexivity. Qed.

Example toISOString_example :
  toISOString (demo_clock 0) = js "2024-01-02T03:04:05.006Z".
Proof. vm_compute. reflexivity. Qed.

Example replace_space_runs_example :
  JS.replace_space_runs (js "_") (js "add  trades table")
  = js "add_trades_table".
Proof. vm_compute. reflexivity. Qed.

Example join_example :
  let base := [js "app"; js "src"; js "database"; js "migrations"] in
  Path.join base (js "20240102030405_a.sql")
  = base ++ [js "20240102030405_a.sql"]
  /\ Path.join base (js "20240102030405_a/../b.sql") = base ++ [js "b.sql"]
  /\ Path.join base (js "x//y/./z.sql") = base ++ [js "x"; js "y"; js "z.sql"]
  /\ Path.join base (js "a/../../../../../../etc/x.sql")
     = [js "etc"; js "x.sql"]
  /\ entry_of base (Path.join base (js "a/../../migrations/b.sql"))
     = Some (js "b.sql")
  /\ entry_of base (Path.join base (js "x/y.sql")) = None.
Proof. repeat split; vm_compute; reflexivity. Qed.

Example toWellFormed_example :
  JS.toWellFormed (js "a" ++ [55296] ++ js "b" ++ [55357; 56832; 56320])
  = js "a" ++ [65533] ++ js "b" ++ [55357; 56832; 65533]
  /\ JS.isWellFormed (js "a" ++ [55357; 56832]) = true
  /\ JS.isWellFormed (js "a" ++ [55296]) = false.
Proof. repeat split; vm_compute; reflexivity. Qed.


(** ** The order of [sort] *)

Lemma str_leb_refl a : JS.str_leb a a = true.
Proof.
  induction a as [|x a IH]; simpl; [reflexivity|].
  rewrite N.ltb_irrefl. exact IH.
Qed.

Lemma str_leb_total a b : JS.str_leb a b = true \/ JS.str_leb b a = true.
Proof.
  revert b. induction a as [|x a IH]; intros [|y b]; simpl; auto.
  destruct (N.ltb_spec x y), (N.ltb_spec y x); auto; lia.
Qed.

Lemma str_leb_antisym a b :
  JS.str_leb a b = true -> JS.str_leb b a = true -> a = b.
Proof.
  revert b. induction a as [|x a IH]; intros [|y b]; simpl; try congruence.
  destruct (N.ltb_spec x y), (N.ltb_spec y x); try congruence; try lia.
  intros Hab Hba. assert (x = y) by lia. subst. f_equal. auto.
Qed.

Lemma str_leb_trans a b c :
  JS.str_leb a b = true -> JS.str_leb b c = true -> JS.str_leb a c = true.
Proof.
  revert b c. induction a as [|x a IH]; intros [|y b] [|z c]; simpl;
    try congruence.
  destruct (N.ltb_spec x y), (N.ltb_spec y x), (N.ltb_spec y z),
    (N.ltb_spec z y), (N.ltb_spec x z), (N.ltb_spec z x);
    try congruence; try lia.
  apply IH.
Qed.

#[global] Instance str_le_total : Total JS.str_le.
Proof. intros a b. apply str_leb_total. Qed.

#[global] Instance str_le_trans : Transitive JS.str_le.
Proof. intros a b c. apply str_leb_trans. Qed.

#[global] Instance str_le_antisym : AntiSymm (=) JS.str_le.
Proof. intros a b. apply str_leb_antisym. Qed.

Lemma sort_nil : JS.sort [] = [].
Proof. reflexivity. Qed.

Lemma sort_sorted arr : StronglySorted JS.str_le (JS.sort arr).
Proof. apply (StronglySorted_merge_sort JS.str_le). Qed.

Lemma sort_perm arr : JS.sort arr ≡ₚ arr.
Proof. apply (merge_sort_Permutation JS.str_le). Qed.

(** The result of [sort] does not depend on the order of its input. *)
Lemma sort_order_independent arr arr' :
  arr ≡ₚ arr' -> JS.sort arr = JS.sort arr'.
Proof.
  intros Hp.
  apply (StronglySorted_unique JS.str_le); try apply sort_sorted.
  rewrite !sort_perm. exact Hp.
Qed.

(** ** The collaborators, call by call *)

Section Properties.

Variable Schema : Type.
Variable exec : jsstring -> Schema -> error + Schema.
Variable row_check : LedgerRow -> option error.
Variable clock : nat -> DateTime.

Implicit Types (w : World Schema) (d : Database Schema).

Lemma world_eq w w' :
  fs w = fs w' -> db w = db w' -> clock_reads w = clock_reads w' ->
  trace w = trace w' -> w = w'.
Proof. destruct w, w'; simpl; intros; subst; reflexivity. Qed.

Lemma after_nil w : after w (db w) (clock_reads w) [] = w.
Proof. apply world_eq; simpl; auto using app_nil_r. Qed.

Lemma after_after w d k evs d' k' evs' :
  after (after w d k evs) d' k' evs' = after w d' k' (evs ++ evs').
Proof. apply world_eq; simpl; auto using app_assoc. Qed.

Lemma set_schema_same d : set_schema (schema d) d = d.
Proof. destruct d; reflexivity. Qed.

Lemma emit_eq ev w : emit ev w = (after w (db w) (clock_reads w) [ev], inr tt).
Proof. reflexivity. Qed.

Lemma db_query_eq q w :
  db_query exec row_check q w
  = (after w (fst (run_query exec row_check q (db w))) (clock_reads w) [Query q],
     snd (run_query exec row_check q (db w))).
Proof.
  unfold db_query, bind. rewrite emit_eq. simpl.
  destruct (run_query exec row_check q (db w)); reflexivity.
Qed.

Lemma Date_now_eq w :
  Date_now clock w
  = (after w (db w) (S (clock_reads w)) [ReadClock],
     inr (epoch_ms (clock (clock_reads w)))).
Proof. reflexivity. Qed.

Lemma readFile_eq file w :
  readFile file w
  = (after w (db w) (clock_reads w) [ReadFile file], read_result (fs w) file).
Proof. reflexivity. Qed.

(** The loop over the statements of a script. *)
Lemma for_of_statements statements w :
  for_of statements
    (fun statement =>
       if truthy (JS.trim statement)
       then db_query exec row_check (Statement statement) ;;; ret tt
       else ret tt) w
  = (after w
       (set_schema (fst (exec_all exec statements (schema (db w)))) (db w))
       (clock_reads w)
       (map (fun s => Query (Statement s))
          (attempted exec statements (schema (db w)))),
     match snd (exec_all exec statements (schema (db w))) with
     | Some e => inl e
     | None => inr tt
     end).
Proof.
  revert w. induction statements as [|st rest IH]; intros w.
  - simpl. unfold ret. rewrite set_schema_same, after_nil. reflexivity.
  - cbn [for_of exec_all attempted]. unfold sent.
    destruct (truthy (JS.trim st)).
    + unfold bind at 1. unfold bind at 1. rewrite db_query_eq.
      cbn [run_query fst snd].
      destruct (exec st (schema (db w))) as [e|s'] eqn:He.
      * cbn [fst snd]. rewrite set_schema_same. reflexivity.
      * cbn [fst snd]. unfold ret at 1. rewrite IH.
        cbn [after db schema set_schema clock_reads fs trace].
        f_equal. apply world_eq; simpl; auto.
        rewrite <- app_assoc. reflexivity.
    + unfold bind at 1, ret at 1. apply IH.
Qed.

(** What one call of [runMigration] does, case by case: the file cannot be
    read; a statement is rejected; the [INSERT] is rejected; the script is
    applied and recorded. *)
Lemma runMigration_eq file v n w :
  runMigration exec row_check clock file v n w
  = let k := clock_reads w in
    match read_result (fs w) file with
    | inl e =>
        (after w (db w) (S k)
           [ReadClock; ReadFile file; ConsoleError (MsgMigrationFailed v n e)],
         inl e)
    | inr content =>
        let statements := statements_of content in
        let d1 :=
          set_schema (fst (exec_all exec statements (schema (db w)))) (db w) in
        let evs1 :=
          ReadClock :: ReadFile file ::
          map (fun s => Query (Statement s))
            (attempted exec statements (schema (db w))) in
        match snd (exec_all exec statements (schema (db w))) with
        | Some e =>
            (after w d1 (S k)
               (evs1 ++ [ConsoleError (MsgMigrationFailed v n e)]),
             inl e)
        | None =>
            let t := (epoch_ms (clock (S k)) - epoch_ms (clock k))%Z in
            let q := InsertMigration v n t in
            (after w (fst (run_query exec row_check q d1)) (S (S k))
               (evs1 ++
                [ReadClock; Query q;
                 match snd (run_query exec row_check q d1) with
                 | inl e => ConsoleError (MsgMigrationFailed v n e)
                 | inr _ => ConsoleLog (MsgExecuted v n t)
                 end]),
             match snd (run_query exec row_check q d1) with
             | inl e => inl e
             | inr _ => inr tt
             end)
        end
    end.
Proof.
  unfold runMigration.
  unfold bind at 1. rewrite Date_now_eq.
  unfold try_catch.
  unfold bind at 1. rewrite readFile_eq.
  cbn [after fs db clock_reads trace].
  destruct (read_result (fs w) file) as [e|content].
  - cbn zeta. unfold bind, console_error, throw. rewrite emit_eq.
    rewrite !after_after. reflexivity.
  - cbn zeta. unfold bind at 1. rewrite for_of_statements.
    cbn [after fs db clock_reads trace schema set_schema].
    destruct (exec_all exec (statements_of content) (schema (db w)))
      as [s1 [e|]]; cbn [fst snd].
    + unfold bind, console_error, throw. rewrite emit_eq.
      f_equal. apply world_eq; simpl; auto.
      rewrite <- !app_assoc. reflexivity.
    + unfold bind at 1. rewrite Date_now_eq.
      cbn [after fs db clock_reads trace].
      unfold bind at 1. rewrite db_query_eq.
      cbn [after fs db clock_reads trace].
      destruct (run_query exec row_check _ _) as [d2 [e|rows]]; cbn [fst snd].
      * unfold bind, console_error, throw. rewrite emit_eq.
        f_equal. apply world_eq; simpl; auto.
        rewrite <- !app_assoc. reflexivity.
      * unfold console_log. rewrite emit_eq.
        f_equal. apply world_eq; simpl; auto.
        rewrite <- !app_assoc. reflexivity.
Qed.

Lemma run_query_create d :
  run_query exec row_check CreateMigrationsTable d
  = match create_fault d with
    | Some e => (d, inl e)
    | None => (ensured d, inr [])
    end.
Proof.
  unfold ensured. simpl. destruct (create_fault d); [reflexivity|].
  destruct (ledger d); reflexivity.
Qed.

Lemma ledger_ensured d :
  ledger (ensured d)
  = Some (match ledger d with Some rows => rows | None => [] end).
Proof. unfold ensured. destruct (ledger d) eqn:H; simpl; auto. Qed.


Lemma close_fault_ensured d : close_fault (ensured d) = close_fault d.
Proof. unfold ensured. destruct (ledger d); reflexivity. Qed.

Lemma create_fault_ensured d : create_fault (ensured d) = create_fault d.
Proof. unfold ensured. destruct (ledger d); reflexivity. Qed.

Lemma select_fault_ensured d : select_fault (ensured d) = select_fault d.
Proof. unfold ensured. destruct (ledger d); reflexivity. Qed.

(** What [initialize] does, case by case: the connection is refused; the
    ledger table cannot be ensured; the table is there. *)
Lemma initialize_eq w :
  initialize exec row_check w
  = match connect_fault (db w) with
    | Some e =>
        (after w (db w) (clock_reads w)
           [Connect; ConsoleError (MsgInitFailed e)], inl e)
    | None =>
        match create_fault (db w) with
        | Some e =>
            (after w (db w) (clock_reads w)
               [Connect; Query CreateMigrationsTable;
                ConsoleError (MsgInitFailed e)], inl e)
        | None =>
            (after w (ensured (db w)) (clock_reads w)
               [Connect; Query CreateMigrationsTable;
                ConsoleLog MsgInitialized],
             inr tt)
        end
    end.
Proof.
  unfold initialize, try_catch, bind at 1, connect, bind at 1.
  rewrite emit_eq. cbn [after fs db clock_reads trace].
  destruct (connect_fault (db w)) as [e|].
  - unfold bind, console_error, throw. rewrite emit_eq, after_after.
    reflexivity.
  - unfold createMigrationsTable, bind at 1, bind at 1.
    rewrite db_query_eq, run_query_create. cbn [after db].
    destruct (create_fault (db w)) as [e|]; cbn [fst snd].
    + unfold bind, console_error, throw. rewrite emit_eq, !after_after.
      reflexivity.
    + unfold ret at 1, console_log. rewrite emit_eq, !after_after.
      reflexivity.
Qed.

Lemma getMigrationFiles_eq w :
  getMigrationFiles w
  = match dir (fs w) with
    | Listing entries =>
        (after w (db w) (clock_reads w) [Readdir],
         inr (JS.sort (List.filter (JS.endsWith (js ".sql")) entries)))
    | _ =>
        match mkdir_fault (fs w) with
        | Some e =>
            (after w (db w) (clock_reads w)
               [Readdir; ConsoleLog MsgNoDirectory; Mkdir], inl e)
        | None =>
            (set_fs (fs (fst (mkdir w)))
               (after w (db w) (clock_reads w)
                  [Readdir; ConsoleLog MsgNoDirectory; Mkdir]), inr [])
        end
    end.
Proof.
  unfold getMigrationFiles, try_catch, bind at 1, readdir, bind at 1.
  rewrite emit_eq. cbn [after fs db clock_reads trace].
  destruct (dir (fs w)) as [|e|entries] eqn:Hdir; try reflexivity;
    unfold mkdir, bind, console_log, ret, emit;
    cbn [after fs db clock_reads trace fst snd set_fs];
    destruct (mkdir_fault (fs w)) as [e'|]; rewrite ?Hdir;
    cbn [fst snd]; f_equal; apply world_eq; simpl; auto;
    rewrite <- ?app_assoc; reflexivity.
Qed.

Lemma fs_mkdir_after w d k evs :
  fs (fst (mkdir (after w d k evs))) = fs (fst (mkdir w)).
Proof.
  unfold mkdir, bind, emit; simpl.
  destruct (mkdir_fault (fs w)); simpl; auto.
  destruct (dir (fs w)); reflexivity.
Qed.

Lemma run_query_select_ensured d :
  run_query exec row_check SelectVersions (ensured d)
  = (ensured d,
     match select_fault d with
     | Some e => inl e
     | None =>
         inr (match ledger d with
              | Some rows => versions_of rows
              | None => []
              end)
     end).
Proof.
  cbn [run_query]. rewrite select_fault_ensured, ledger_ensured.
  destruct (select_fault d); [reflexivity|].
  destruct (ledger d); reflexivity.
Qed.

(** What the steps before the loop do, case by case: the run stops early;
    the directory is listed; the listing fails and so does [mkdir]; the
    listing fails and [mkdir] resolves. *)
Lemma diffing_eq w :
  diffing exec row_check w
  = match early_failure w with
    | Some (d, evs, e) => (after w d (clock_reads w) evs, inl e)
    | None =>
        let evs0 :=
          [Connect; Query CreateMigrationsTable; ConsoleLog MsgInitialized;
           Query SelectVersions; Readdir] in
        match dir (fs w) with
        | Listing _ =>
            (after w (ensured (db w)) (clock_reads w)
               (evs0 ++
                [ConsoleLog (MsgFound (length (available_files w)));
                 ConsoleLog (MsgAlreadyExecuted (length (applied_versions w)))]),
             inr (applied_versions w, available_files w))
        | _ =>
            match mkdir_fault (fs w) with
            | Some e =>
                (after w (ensured (db w)) (clock_reads w)
                   (evs0 ++ [ConsoleLog MsgNoDirectory; Mkdir]), inl e)
            | None =>
                (set_fs (fs (fst (mkdir w)))
                   (after w (ensured (db w)) (clock_reads w)
                      (evs0 ++
                       [ConsoleLog MsgNoDirectory; Mkdir;
                        ConsoleLog (MsgFound 0);
                        ConsoleLog
                          (MsgAlreadyExecuted (length (applied_versions w)))])),
                 inr (applied_versions w, []))
            end
        end
    end.
Proof.
  unfold diffing, bind at 1, early_failure. rewrite initialize_eq.
  destruct (connect_fault (db w)) as [e|]; [reflexivity|].
  destruct (create_fault (db w)) as [e|]; [reflexivity|].
  unfold getExecutedMigrations, bind at 1. rewrite db_query_eq.
  cbn [after fs db clock_reads trace]. rewrite run_query_select_ensured.
  destruct (select_fault (db w)) as [e|];
    [cbn [fst snd]; rewrite after_after; reflexivity|].
  cbn [fst snd]. unfold bind at 1. rewrite getMigrationFiles_eq.
  cbn [after fs db clock_reads trace].
  unfold applied_versions, available_files.
  destruct (dir (fs w)) as [|e|entries] eqn:Hdir.
  - destruct (mkdir_fault (fs w)) as [e'|] eqn:Hm.
    + f_equal. apply world_eq; simpl; rewrite ?fs_mkdir_after; auto.
      rewrite <- ?app_assoc; reflexivity.
    + unfold bind, console_log, ret, emit. cbn [fst snd]. f_equal.
      apply world_eq; simpl; rewrite ?fs_mkdir_after; auto.
      rewrite <- ?app_assoc; reflexivity.
  - destruct (mkdir_fault (fs w)) as [e'|] eqn:Hm.
    + f_equal. apply world_eq; simpl; rewrite ?fs_mkdir_after; auto.
      rewrite <- ?app_assoc; reflexivity.
    + unfold bind, console_log, ret, emit. cbn [fst snd]. f_equal.
      apply world_eq; simpl; rewrite ?fs_mkdir_after; auto.
      rewrite <- ?app_assoc; reflexivity.
  - unfold bind, console_log, ret, emit. cbn [fst snd]. f_equal.
    apply world_eq; simpl; rewrite ?fs_mkdir_after; auto.
      rewrite <- ?app_assoc; reflexivity.
Qed.

Lemma close_eq w :
  close w
  = (after w (db w) (clock_reads w) [Close],
     match close_fault (db w) with Some e => inl e | None => inr tt end).
Proof.
  unfold close, bind. rewrite emit_eq. simpl.
  destruct (close_fault (db w)); reflexivity.
Qed.

(** [migrate] is these steps, then the loop and the summary line, inside the
    [try ... catch ... finally] of the source. *)
Lemma migrate_eq w :
  migrate exec row_check clock w
  = let '(w2, r) :=
      match diffing exec row_check w with
      | (w0, inl e) =>
          (after w0 (db w0) (clock_reads w0) [ConsoleError (MsgFailed e)],
           inl e)
      | (w0, inr p) =>
          match migrate_files exec row_check clock (fst p) (snd p) 0 w0 with
          | (w1, inl e) =>
              (after w1 (db w1) (clock_reads w1) [ConsoleError (MsgFailed e)],
               inl e)
          | (w1, inr executedCount) =>
              (after w1 (db w1) (clock_reads w1)
                 [ConsoleLog (if (executedCount =? 0)%nat then MsgUpToDate
                              else MsgSuccess executedCount)],
               inr tt)
          end
      end in
    (after w2 (db w2) (clock_reads w2) [Close],
     match close_fault (db w2) with Some e => inl e | None => r end).
Proof.
  assert (Hclose : forall (w2 : World Schema) (r : error + unit),
             match close w2 with
             | (w3, inl e) => (w3, inl e)
             | (w3, inr _) => (w3, r)
             end
             = (after w2 (db w2) (clock_reads w2) [Close],
                match close_fault (db w2) with
                | Some e => inl e
                | None => r
                end)).
  { intros w2 r. rewrite close_eq. destruct (close_fault (db w2)); reflexivity. }
  unfold migrate, finally, try_catch.
  unfold diffing, bind.
  destruct (initialize exec row_check w) as [w1 [e|[]]]; [apply Hclose|].
  destruct (getExecutedMigrations exec row_check w1) as [w2 [e|ex]];
    [apply Hclose|].
  destruct (getMigrationFiles w2) as [w3 [e|files]]; [apply Hclose|].
  destruct (console_log _ w3) as [w4 [e|[]]]; [apply Hclose|].
  destruct (console_log _ w4) as [w5 [e|[]]]; [apply Hclose|].
  unfold ret. cbn [fst snd].
  destruct (migrate_files _ _ _ _ _ _ w5) as [w6 [e|m]]; [apply Hclose|].
  destruct (m =? 0)%nat; apply Hclose.
Qed.

(** ** One script *)

Lemma loaded_app evs evs' : loaded (evs ++ evs') = loaded evs ++ loaded evs'.
Proof. apply omap_app. Qed.

Lemma loaded_statements (l : list jsstring) :
  loaded (map (fun s => Query (Statement s)) l) = [].
Proof. induction l; simpl; auto. Qed.

Lemma ledger_set_schema (s : Schema) d : ledger (set_schema s d) = ledger d.
Proof. reflexivity. Qed.

(** [runMigration] leaves the files alone, as well as what [connect] and
    [close] will answer. *)
Lemma runMigration_frame file v n w :
  let w' := fst (runMigration exec row_check clock file v n w) in
  fs w' = fs w
  /\ connect_fault (db w') = connect_fault (db w)
  /\ close_fault (db w') = close_fault (db w).
Proof.
  rewrite runMigration_eq. cbn zeta.
  destruct (read_result (fs w) file) as [e|content]; [simpl; auto|].
  destruct (snd (exec_all _ _ _)) as [e|]; [simpl; auto|].
  cbn [fst after fs db run_query].
  rewrite ledger_set_schema.
  destruct (ledger (db w)) as [rows|]; [|simpl; auto].
  destruct (bool_decide _); [simpl; auto|].
  destruct (row_check _); simpl; auto.
Qed.

Lemma runMigration_faults file v n w :
  let w' := fst (runMigration exec row_check clock file v n w) in
  create_fault (db w') = create_fault (db w)
  /\ select_fault (db w') = select_fault (db w).
Proof.
  rewrite runMigration_eq. cbn zeta.
  destruct (read_result (fs w) file) as [e|content]; [simpl; auto|].
  destruct (snd (exec_all _ _ _)) as [e|]; [simpl; auto|].
  cbn [fst after fs db run_query].
  rewrite ledger_set_schema.
  destruct (ledger (db w)) as [rows|]; [|simpl; auto].
  destruct (bool_decide _); [simpl; auto|].
  destruct (row_check _); simpl; auto.
Qed.

(** Its effect on the ledger: one row more when it resolves, none when it
    rejects. *)
Lemma runMigration_ledger file v n w rows :
  ledger (db w) = Some rows ->
  let r := runMigration exec row_check clock file v n w in
  (snd r = inr tt
   /\ (v ∉ versions_of rows)
   /\ ledger (db (fst r))
      = Some (rows ++
              [row_of v n (epoch_ms (clock (S (clock_reads w)))
                           - epoch_ms (clock (clock_reads w)))]))
  \/ ((exists e, snd r = inl e) /\ ledger (db (fst r)) = Some rows).
Proof.
  intros Hl. rewrite runMigration_eq. cbn zeta.
  destruct (read_result (fs w) file) as [e|content]; [right; simpl; eauto|].
  destruct (snd (exec_all _ _ _)) as [e|]; [right; simpl; eauto|].
  cbn [fst snd after fs db run_query].
  rewrite ledger_set_schema, Hl.
  destruct (bool_decide_reflect (v ∈ versions_of rows)) as [Hin|Hin];
    [right; simpl; eauto|].
  destruct (row_check _) as [e|]; [right; simpl; eauto|].
  left. simpl. auto.
Qed.

(** The calls it makes: it loads its file, once, and everything it sends
    belongs to that script. *)
Lemma runMigration_trace executed files file w :
  file ∈ files -> JS.includes (version_of file) executed = false ->
  exists evs,
    trace (fst (runMigration exec row_check clock file
                  (version_of file) (name_of file) w)) = trace w ++ evs
    /\ Forall (run_event executed files) evs
    /\ loaded evs = [file].
Proof.
  intros Hin Hp. rewrite runMigration_eq. cbn zeta.
  assert (Hst : forall l : list jsstring,
             Forall (run_event executed files)
               (map (fun s => Query (Statement s)) l)).
  { intros l. apply Forall_map, Forall_forall. intros s _.
    eapply re_statement; eauto. }
  assert (Hc : run_event executed files ReadClock) by constructor.
  assert (Hr : run_event executed files (ReadFile file))
    by (constructor; auto).
  destruct (read_result (fs w) file) as [e|content].
  { eexists. split; [reflexivity|]. split; [|reflexivity].
    repeat constructor; auto. }
  destruct (snd (exec_all _ _ _)) as [e|].
  { eexists. split; [reflexivity|]. split.
    - repeat (apply Forall_cons; split; auto).
      apply Forall_app; split; auto. repeat constructor.
    - simpl. rewrite loaded_app, loaded_statements. reflexivity. }
  destruct (snd (run_query exec row_check _ _)) as [e|rows'];
    (eexists; split; [reflexivity|]; split;
     [ repeat (apply Forall_cons; split; auto);
       apply Forall_app; split; auto;
       repeat (apply Forall_cons; split; auto);
       [ apply re_insert; auto | constructor; congruence ]
     | simpl; rewrite loaded_app, loaded_statements; reflexivity ]).
Qed.

(** ** The loop of [migrate] *)

Lemma migrate_files_cons executed file rest n w :
  migrate_files exec row_check clock executed (file :: rest) n w
  = if pending executed file then
      match runMigration exec row_check clock file (version_of file)
              (name_of file)
              (after w (db w) (clock_reads w)
                 [ConsoleLog (MsgRunning (version_of file) (name_of file))])
      with
      | (w1, inl e) => (w1, inl e)
      | (w1, inr _) =>
          migrate_files exec row_check clock executed rest (S n) w1
      end
    else
      migrate_files exec row_check clock executed rest n
        (after w (db w) (clock_reads w)
           [ConsoleLog (MsgSkipping (version_of file))]).
Proof.
  cbn [migrate_files]. unfold pending.
  destruct (negb _); unfold bind at 1, console_log; rewrite emit_eq.
  - unfold bind at 1. reflexivity.
  - reflexivity.
Qed.

Lemma migrate_files_app executed pre rest n w :
  migrate_files exec row_check clock executed (pre ++ rest) n w
  = match migrate_files exec row_check clock executed pre n w with
    | (w1, inl e) => (w1, inl e)
    | (w1, inr m) => migrate_files exec row_check clock executed rest m w1
    end.
Proof.
  revert n w. induction pre as [|file pre IH]; intros n w; [reflexivity|].
  rewrite <- app_comm_cons, !migrate_files_cons.
  destruct (pending executed file); [|apply IH].
  destruct (runMigration _ _ _ _ _ _ _) as [w1 [e|[]]]; [reflexivity|].
  apply IH.
Qed.

(** When no file is pending the loop only writes its "skipping" lines. *)
Lemma migrate_files_skip executed files n w :
  Forall (fun file => pending executed file = false) files ->
  migrate_files exec row_check clock executed files n w
  = (after w (db w) (clock_reads w)
       (map (fun file => ConsoleLog (MsgSkipping (version_of file))) files),
     inr n).
Proof.
  intros H. revert w. induction H as [|file rest Hp _ IH]; intros w.
  - simpl. unfold ret. rewrite after_nil. reflexivity.
  - rewrite migrate_files_cons, Hp, IH, after_after. reflexivity.
Qed.

Lemma migrate_files_frame executed files n w :
  let w' := fst (migrate_files exec row_check clock executed files n w) in
  fs w' = fs w
  /\ connect_fault (db w') = connect_fault (db w)
  /\ close_fault (db w') = close_fault (db w).
Proof.
  revert n w. induction files as [|file rest IH]; intros n w; [simpl; auto|].
  cbn zeta. rewrite migrate_files_cons.
  destruct (pending executed file).
  - pose proof (runMigration_frame file (version_of file) (name_of file)
                  (after w (db w) (clock_reads w)
                     [ConsoleLog (MsgRunning (version_of file) (name_of file))]))
      as Hf.
    cbn zeta in Hf.
    destruct (runMigration _ _ _ _ _ _ _) as [w1 [e|[]]]; [exact Hf|].
    specialize (IH (S n) w1). cbn zeta in IH. simpl in Hf.
    destruct IH as (-> & -> & ->). exact Hf.
  - specialize (IH n (after w (db w) (clock_reads w)
                        [ConsoleLog (MsgSkipping (version_of file))])).
    exact IH.
Qed.

Lemma migrate_files_faults executed files n w :
  let w' := fst (migrate_files exec row_check clock executed files n w) in
  create_fault (db w') = create_fault (db w)
  /\ select_fault (db w') = select_fault (db w).
Proof.
  revert n w. induction files as [|file rest IH]; intros n w; [simpl; auto|].
  cbn zeta. rewrite migrate_files_cons.
  destruct (pending executed file).
  - pose proof (runMigration_faults file (version_of file) (name_of file)
                  (after w (db w) (clock_reads w)
                     [ConsoleLog (MsgRunning (version_of file) (name_of file))]))
      as Hf.
    cbn zeta in Hf.
    destruct (runMigration _ _ _ _ _ _ _) as [w1 [e|[]]]; [exact Hf|].
    specialize (IH (S n) w1). cbn zeta in IH. simpl in Hf.
    destruct IH as (-> & ->). exact Hf.
  - specialize (IH n (after w (db w) (clock_reads w)
                        [ConsoleLog (MsgSkipping (version_of file))])).
    exact IH.
Qed.

(** The calls of the loop: the files it loads are the pending ones, in the
    order of [files], all of them when the loop completes and those up to
    the failing one otherwise. *)
Lemma migrate_files_trace executed all files n w :
  files ⊆ all ->
  let r := migrate_files exec row_check clock executed files n w in
  exists evs,
    trace (fst r) = trace w ++ evs
    /\ Forall (run_event executed all) evs
    /\ loaded evs `prefix_of` List.filter (pending executed) files
    /\ (forall m, snd r = inr m ->
        loaded evs = List.filter (pending executed) files).
Proof.
  revert n w. induction files as [|file rest IH]; intros n w Hsub; cbn zeta.
  { exists []. simpl. rewrite app_nil_r. repeat split; auto. }
  assert (Hin : file ∈ all) by (apply Hsub; left).
  assert (Hrest : rest ⊆ all) by (intros x Hx; apply Hsub; right; exact Hx).
  rewrite migrate_files_cons. cbn [List.filter].
  destruct (pending executed file) eqn:Hp.
  - assert (Hinc : JS.includes (version_of file) executed = false).
    { unfold pending in Hp. destruct (JS.includes _ _); auto; discriminate. }
    destruct (runMigration_trace executed all file
                (after w (db w) (clock_reads w)
                   [ConsoleLog (MsgRunning (version_of file) (name_of file))])
                Hin Hinc) as (evs1 & Ht1 & Hf1 & Hl1).
    destruct (runMigration _ _ _ _ _ _ _) as [w1 [e|[]]]; simpl in Ht1.
    + exists (ConsoleLog (MsgRunning (version_of file) (name_of file)) :: evs1).
      cbn [fst snd]. rewrite Ht1, <- app_assoc. split; [reflexivity|].
      split; [constructor; [apply re_running; auto|exact Hf1]|].
      simpl. rewrite Hl1. split; [|discriminate].
      exists (List.filter (pending executed) rest). reflexivity.
    + destruct (IH (S n) w1 Hrest) as (evs2 & Ht2 & Hf2 & Hl2 & Hs2).
      exists (ConsoleLog (MsgRunning (version_of file) (name_of file))
              :: evs1 ++ evs2).
      rewrite Ht2, Ht1, <- !app_assoc. split; [reflexivity|].
      split; [constructor; [apply re_running; auto|]|].
      { apply Forall_app; auto. }
      simpl. rewrite loaded_app, Hl1. simpl. split.
      * apply prefix_cons. exact Hl2.
      * intros m Hm. f_equal. eauto.
  - destruct (IH n (after w (db w) (clock_reads w)
                      [ConsoleLog (MsgSkipping (version_of file))]) Hrest)
      as (evs2 & Ht2 & Hf2 & Hl2 & Hs2).
    exists (ConsoleLog (MsgSkipping (version_of file)) :: evs2).
    rewrite Ht2. simpl. rewrite <- app_assoc. split; [reflexivity|].
    split; [constructor; [constructor; congruence|exact Hf2]|].
    split; auto.
Qed.

(** The rows of the loop: one per pending file that was applied, in the
    order of [files], with the version and name derived from the file. *)
Lemma migrate_files_ledger executed files n w rows0 :
  ledger (db w) = Some rows0 ->
  let r := migrate_files exec row_check clock executed files n w in
  exists rows,
    ledger (db (fst r)) = Some (rows0 ++ rows)
    /\ Forall (fun row => row_checksum row = None) rows
    /\ map (fun row => (row_version row, row_name row)) rows
       `prefix_of` map (fun file => (version_of file, name_of file))
                     (List.filter (pending executed) files)
    /\ (forall m, snd r = inr m ->
        map (fun row => (row_version row, row_name row)) rows
        = map (fun file => (version_of file, name_of file))
            (List.filter (pending executed) files)
        /\ m = (n + length rows)%nat).
Proof.
  revert n w rows0.
  induction files as [|file rest IH]; intros n w rows0 Hl; cbn zeta.
  { exists []. simpl. rewrite app_nil_r. repeat split; auto.
    unfold ret in H. simpl in H. injection H as <-. lia. }
  rewrite migrate_files_cons. cbn [List.filter].
  destruct (pending executed file) eqn:Hp.
  - pose proof (runMigration_ledger file (version_of file) (name_of file)
                  (after w (db w) (clock_reads w)
                     [ConsoleLog (MsgRunning (version_of file) (name_of file))])
                  rows0 Hl) as Hr.
    cbn zeta in Hr.
    destruct (runMigration _ _ _ _ _ _ _) as [w1 [e|[]]]; cbn [fst snd] in *.
    + destruct Hr as [(Hr & _)|(_ & Hr)]; [discriminate|].
      exists []. rewrite app_nil_r. split; [exact Hr|].
      split; [constructor|]. split; [apply prefix_nil|discriminate].
    + destruct Hr as [(_ & _ & Hr)|((e & He) & _)]; [|discriminate].
      destruct (IH (S n) w1 _ Hr) as (rows & Hl2 & Hc & Hpre & Hs).
      eexists (_ :: rows). rewrite Hl2, <- app_assoc. split; [reflexivity|].
      split; [constructor; auto|]. split.
      * simpl. apply prefix_cons. exact Hpre.
      * intros m Hm. destruct (Hs m Hm) as [Hs1 Hs2]. simpl.
        split; [f_equal; exact Hs1|lia].
  - apply (IH n (after w (db w) (clock_reads w)
                   [ConsoleLog (MsgSkipping (version_of file))]) rows0).
    exact Hl.
Qed.

(** ** The whole run *)

Lemma early_failure_none w :
  early_failure w = None
  <-> connect_fault (db w) = None /\ create_fault (db w) = None
      /\ select_fault (db w) = None.
Proof.
  unfold early_failure.
  destruct (connect_fault (db w)), (create_fault (db w)),
    (select_fault (db w)); split; try discriminate; auto;
    intros (? & ? & ?); discriminate.
Qed.

(** A run that stops early has called nothing but the connection and the
    two queries on the ledger table, and leaves the database with the rows
    and the contents it had. *)
Lemma early_failure_some w d evs e :
  early_failure w = Some (d, evs, e) ->
  (d = db w \/ d = ensured (db w))
  /\ (forall executed files, Forall (run_event executed files) evs)
  /\ loaded evs = []
  /\ exists q, evs = Connect :: q.
Proof.
  unfold early_failure.
  destruct (connect_fault (db w)) as [e1|];
    [|destruct (create_fault (db w)) as [e2|];
      [|destruct (select_fault (db w)) as [e3|]; [|discriminate]]];
    intros H; injection H as <- <- <-;
    (split; [auto|]); (split; [|split; [reflexivity|eauto]]);
    intros executed files; repeat constructor; congruence.
Qed.

Lemma run_event_not_close executed files ev :
  run_event executed files ev -> ev <> Close.
Proof. intros H; inversion H; discriminate. Qed.

(** The calls of one run: those of the steps before the loop and of the
    loop, then [close], which ends every run. *)
Lemma migrate_trace w :
  exists evs,
    trace (fst (migrate exec row_check clock w)) = trace w ++ evs ++ [Close]
    /\ Forall (run_event (applied_versions w) (available_files w)) evs
    /\ loaded evs
       `prefix_of` List.filter (pending (applied_versions w)) (available_files w)
    /\ (snd (migrate exec row_check clock w) = inr tt ->
        loaded evs
        = List.filter (pending (applied_versions w)) (available_files w)).
Proof.
  pose proof (migrate_eq w) as E.
  destruct (migrate exec row_check clock w) as [w' res]. cbn [fst snd].
  rewrite diffing_eq in E.
  destruct (early_failure w) as [[[d0 evs0] e]|] eqn:Hearly.
  { destruct (early_failure_some _ _ _ _ Hearly) as (_ & Hev & Hl & _).
    simpl in E. injection E as -> ->. cbn [trace after].
    exists (evs0 ++ [ConsoleError (MsgFailed e)]).
    rewrite <- !app_assoc. split; [reflexivity|].
    split; [apply Forall_app; split; [apply Hev|repeat constructor]|].
    rewrite loaded_app, Hl. split; [apply prefix_nil|].
    destruct (close_fault d0); discriminate. }
  cbn zeta in E.
  destruct (dir (fs w)) as [|e|entries] eqn:Hdir;
    [destruct (mkdir_fault (fs w)) as [e'|] eqn:Hm
    |destruct (mkdir_fault (fs w)) as [e'|] eqn:Hm|].
  1, 3: simpl in E; injection E as -> ->; cbn [trace after set_fs];
    exists [Connect; Query CreateMigrationsTable; ConsoleLog MsgInitialized;
            Query SelectVersions; Readdir; ConsoleLog MsgNoDirectory; Mkdir;
            ConsoleError (MsgFailed e')];
    rewrite <- !app_assoc;
    (split; [reflexivity|]);
    (split; [repeat constructor; congruence|]);
    (split; [apply prefix_nil|]);
    destruct (close_fault _); discriminate.
  1, 2: simpl in E; injection E as -> ->; cbn [trace after set_fs];
    exists [Connect; Query CreateMigrationsTable; ConsoleLog MsgInitialized;
            Query SelectVersions; Readdir; ConsoleLog MsgNoDirectory; Mkdir;
            ConsoleLog (MsgFound 0);
            ConsoleLog (MsgAlreadyExecuted (length (applied_versions w)));
            ConsoleLog MsgUpToDate];
    rewrite <- !app_assoc;
    (split; [reflexivity|]);
    (split; [repeat constructor; congruence|]);
    unfold available_files; rewrite Hdir; simpl; auto using prefix_nil.
  cbn [fst snd] in E.
  match type of E with
  | context [migrate_files _ _ _ ?ex ?fl 0%nat ?w0] =>
      destruct (migrate_files_trace ex fl fl 0%nat w0)
        as (evs & Ht & Hf & Hpre & Hs); [intros x Hx; exact Hx|];
      cbn zeta in Ht, Hs;
      destruct (migrate_files exec row_check clock ex fl 0%nat w0)
        as [w1 [e|m]]
  end; cbn [fst snd] in *.
  - injection E as -> ->. cbn [after trace]. rewrite Ht. cbn [after trace].
    exists ([Connect; Query CreateMigrationsTable; ConsoleLog MsgInitialized;
             Query SelectVersions; Readdir;
             ConsoleLog (MsgFound (length (available_files w)));
             ConsoleLog (MsgAlreadyExecuted (length (applied_versions w)))]
            ++ evs ++ [ConsoleError (MsgFailed e)]).
    rewrite <- !app_assoc.
    split; [reflexivity|]. split.
    + repeat (apply Forall_cons; split; [constructor; congruence|]).
      apply Forall_app; split; [exact Hf|repeat constructor].
    + simpl. rewrite loaded_app. simpl. rewrite app_nil_r.
      split; [exact Hpre|]. destruct (close_fault _); discriminate.
  - injection E as -> ->. cbn [after trace]. rewrite Ht. cbn [after trace].
    exists ([Connect; Query CreateMigrationsTable; ConsoleLog MsgInitialized;
             Query SelectVersions; Readdir;
             ConsoleLog (MsgFound (length (available_files w)));
             ConsoleLog (MsgAlreadyExecuted (length (applied_versions w)))]
            ++ evs
            ++ [ConsoleLog (if (m =? 0)%nat then MsgUpToDate
                            else MsgSuccess m)]).
    rewrite <- !app_assoc.
    split; [reflexivity|]. split.
    + repeat (apply Forall_cons; split; [constructor; congruence|]).
      apply Forall_app; split; [exact Hf|].
      repeat constructor. destruct (m =? 0)%nat; congruence.
    + simpl. rewrite loaded_app. simpl. rewrite app_nil_r.
      split; [exact Hpre|]. intros _. eauto.
Qed.

Lemma applied_versions_rows w : applied_versions w = versions_of (ledger_rows w).
Proof. unfold applied_versions, ledger_rows. destruct (ledger (db w)); auto. Qed.

Lemma includes_true v arr : JS.includes v arr = true <-> v ∈ arr.
Proof. unfold JS.includes. apply bool_decide_eq_true. Qed.

Lemma pending_false executed file :
  pending executed file = false <-> version_of file ∈ executed.
Proof.
  unfold pending. rewrite negb_false_iff. apply includes_true.
Qed.

Lemma run_event_untouched executed files file ev :
  version_of file ∈ executed ->
  run_event executed files ev -> untouched file ev.
Proof.
  intros Hin H.
  assert (Hne : forall f, JS.includes (version_of f) executed = false ->
                  version_of f <> version_of file).
  { intros f Hf Heq. rewrite Heq in Hf.
    apply includes_true in Hin. congruence. }
  inversion H; subst; simpl; auto.
  - destruct m; auto. intros ->. eapply H0; reflexivity.
  - intros ->. eapply Hne; eauto.
Qed.

(** C6: on every exit path of a run of [migrate] (completion, a failed
    initialization, a failed listing or load, a rejected statement) the
    connection is closed exactly once, and closing it is the last thing
    the run does before it settles. *)
Theorem migrate_closes_connection_once w :
  exists evs,
    trace (fst (migrate exec row_check clock w)) = trace w ++ evs ++ [Close]
    /\ Forall (fun ev => ev <> Close) evs.
Proof.
  destruct (migrate_trace w) as (evs & Ht & Hf & _).
  exists evs. split; [exact Ht|].
  eapply Forall_impl; [exact Hf|].
  intros ev. apply run_event_not_close.
Qed.

(** *** Editing a file that is not pending *)

Lemma after_edit_file file r w d k evs :
  after (edit_file file r w) d k evs = edit_file file r (after w d k evs).
Proof. reflexivity. Qed.

Lemma read_edit_file_other file r f w :
  f <> file -> read_result (fs (edit_file file r w)) f = read_result (fs w) f.
Proof.
  intros Hne. cbn [edit_file set_fs fs read_result].
  rewrite bool_decide_eq_false_2 by exact Hne. reflexivity.
Qed.

Lemma runMigration_edit_file file r f v n w :
  f <> file ->
  runMigration exec row_check clock f v n (edit_file file r w)
  = (edit_file file r (fst (runMigration exec row_check clock f v n w)),
     snd (runMigration exec row_check clock f v n w)).
Proof.
  intros Hne. rewrite !runMigration_eq. cbn zeta.
  rewrite (read_edit_file_other file r f w Hne).
  change (db (edit_file file r w)) with (db w).
  change (clock_reads (edit_file file r w)) with (clock_reads w).
  destruct (read_result (fs w) f) as [e|content]; [reflexivity|].
  destruct (snd (exec_all _ _ _)) as [e|]; reflexivity.
Qed.

Lemma migrate_files_edit_file file r executed files n w :
  Forall (fun f => pending executed f = true -> f <> file) files ->
  migrate_files exec row_check clock executed files n (edit_file file r w)
  = (edit_file file r
       (fst (migrate_files exec row_check clock executed files n w)),
     snd (migrate_files exec row_check clock executed files n w)).
Proof.
  intros H. revert n w.
  induction H as [|f files Hf _ IH]; intros n w; [reflexivity|].
  rewrite !migrate_files_cons.
  change (db (edit_file file r w)) with (db w).
  change (clock_reads (edit_file file r w)) with (clock_reads w).
  rewrite !after_edit_file.
  destruct (pending executed f) eqn:Hp; [|apply IH].
  rewrite (runMigration_edit_file file r f _ _ _ (Hf eq_refl)).
  destruct (runMigration _ _ _ _ _ _ _) as [w1 [e|[]]]; [reflexivity|].
  apply IH.
Qed.

Lemma diffing_edit_file file r w :
  diffing exec row_check (edit_file file r w)
  = (edit_file file r (fst (diffing exec row_check w)),
     snd (diffing exec row_check w)).
Proof.
  rewrite !diffing_eq.
  change (db (edit_file file r w)) with (db w).
  change (clock_reads (edit_file file r w)) with (clock_reads w).
  change (dir (fs (edit_file file r w))) with (dir (fs w)).
  change (mkdir_fault (fs (edit_file file r w))) with (mkdir_fault (fs w)).
  change (applied_versions (edit_file file r w)) with (applied_versions w).
  change (available_files (edit_file file r w)) with (available_files w).
  change (early_failure (edit_file file r w)) with (early_failure w).
  destruct (early_failure w) as [[[d0 evs0] e]|]; [reflexivity|]. cbn zeta.
  destruct (dir (fs w)) as [|e|entries] eqn:Hdir;
    try (destruct (mkdir_fault (fs w)) as [e'|] eqn:Hm);
    try reflexivity;
    cbn [fst snd]; f_equal; apply world_eq; try reflexivity;
    unfold mkdir, bind, emit; cbn [fst snd after fs edit_file set_fs];
    cbn [mkdir_fault dir]; rewrite Hm, Hdir;
    cbn [fst snd fs set_fs dir mkdir_fault read_result write_fault];
    rewrite ?Hm, ?Hdir; reflexivity.
Qed.

(** A run does not depend on what the file of an applied version holds. *)
Lemma migrate_edit_file file r w :
  version_of file ∈ applied_versions w ->
  migrate exec row_check clock (edit_file file r w)
  = (edit_file file r (fst (migrate exec row_check clock w)),
     snd (migrate exec row_check clock w)).
Proof.
  intros Hin. rewrite !migrate_eq, diffing_edit_file.
  pose proof (diffing_eq w) as Hd.
  destruct (diffing exec row_check w) as [w0 [e|[executed files]]];
    cbn [fst snd]; [reflexivity|].
  assert (Hex : executed = applied_versions w).
  { destruct (early_failure w) as [[[d0 evs0] e]|]; [discriminate|].
    cbn zeta in Hd.
    destruct (dir (fs w)); try destruct (mkdir_fault (fs w));
      try discriminate; injection Hd as _ <- _; reflexivity. }
  rewrite migrate_files_edit_file.
  - destruct (migrate_files _ _ _ _ _ _ w0) as [w1 [e|m]]; reflexivity.
  - apply Forall_forall. intros f _ Hp ->.
    apply pending_false in Hin. rewrite <- Hex in Hin. congruence.
Qed.

(** C5: a script whose version is already in the ledger is not pending and
    a run of [migrate] leaves it alone: the run does not load the file, does
    not announce the version as running and sends no [INSERT] for it; the
    run is the same whatever the file holds now, readable or not. *)
Theorem applied_version_is_never_rerun w rows file :
  ledger (db w) = Some rows ->
  version_of file ∈ versions_of rows ->
  pending (applied_versions w) file = false
  /\ (exists evs,
        trace (fst (migrate exec row_check clock w)) = trace w ++ evs
        /\ Forall (untouched file) evs)
  /\ forall r,
       migrate exec row_check clock (edit_file file r w)
       = (edit_file file r (fst (migrate exec row_check clock w)),
          snd (migrate exec row_check clock w)).
Proof.
  intros Hl Hin.
  assert (Hex : version_of file ∈ applied_versions w)
    by (unfold applied_versions; rewrite Hl; exact Hin).
  split; [apply pending_false; exact Hex|]. split.
  - destruct (migrate_trace w) as (evs & Ht & Hf & _).
    exists (evs ++ [Close]). split; [exact Ht|].
    apply Forall_app. split; [|repeat constructor].
    eapply Forall_impl; [exact Hf|].
    intros ev. apply run_event_untouched. exact Hex.
  - intros r. apply migrate_edit_file. exact Hex.
Qed.

(** C2: when all statements of a script succeed and the row is accepted,
    [runMigration] appends one row to the ledger with the version, the name
    and the elapsed time between its two clock readings; the [checksum] of
    that row is [NULL]: no hash of the script content is computed or
    stored. *)
Theorem runMigration_records_null_checksum file v n w :
  snd (runMigration exec row_check clock file v n w) = inr tt ->
  exists rows,
    ledger (db w) = Some rows
    /\ ledger (db (fst (runMigration exec row_check clock file v n w)))
       = Some (rows ++
               [{| row_version := v; row_name := n; row_checksum := None;
                   row_execution_time :=
                     epoch_ms (clock (S (clock_reads w)))
                     - epoch_ms (clock (clock_reads w)) |}]).
Proof.
  intros H.
  destruct (ledger (db w)) as [rows|] eqn:Hl.
  - exists rows. split; [reflexivity|].
    destruct (runMigration_ledger file v n w rows Hl)
      as [(_ & _ & Hr)|((e & He) & _)].
    + exact Hr.
    + rewrite H in He. discriminate.
  - exfalso. rewrite runMigration_eq in H. cbn zeta in H.
    destruct (read_result (fs w) file) as [e|content]; [discriminate|].
    destruct (snd (exec_all _ _ _)) as [e|]; [discriminate|].
    cbn [run_query] in H. rewrite ledger_set_schema, Hl in H. discriminate.
Qed.

Lemma filter_perm (f : jsstring -> bool) l l' :
  l ≡ₚ l' -> List.filter f l ≡ₚ List.filter f l'.
Proof.
  induction 1 as [|x l l' _ IH|x y l|l l' l'' _ IH1 _ IH2]; simpl.
  - reflexivity.
  - destruct (f x); [constructor|]; exact IH.
  - destruct (f x), (f y); try reflexivity. apply perm_swap.
  - etransitivity; eauto.
Qed.

(** C3 (amended): the files are applied in the ascending order of their
    file names, suffix included, compared code unit by code unit, in
    whatever order the directory lists them: the files a run loads are the
    pending ones of the sorted list, in that order, all of them when the run
    resolves and those up to the failing one otherwise. *)
Theorem migrate_applies_in_file_name_order w entries :
  dir (fs w) = Listing entries ->
  let files := JS.sort (List.filter (JS.endsWith (js ".sql")) entries) in
  StronglySorted JS.str_le files
  /\ files ≡ₚ List.filter (JS.endsWith (js ".sql")) entries
  /\ (forall entries',
        entries' ≡ₚ entries ->
        JS.sort (List.filter (JS.endsWith (js ".sql")) entries') = files)
  /\ exists evs,
       trace (fst (migrate exec row_check clock w)) = trace w ++ evs
       /\ loaded evs `prefix_of` List.filter (pending (applied_versions w)) files
       /\ (snd (migrate exec row_check clock w) = inr tt ->
           loaded evs = List.filter (pending (applied_versions w)) files).
Proof.
  intros Hdir files. split; [apply sort_sorted|]. split; [apply sort_perm|].
  split.
  { intros entries' Hp. apply sort_order_independent, filter_perm, Hp. }
  destruct (migrate_trace w) as (evs & Ht & _ & Hpre & Hs).
  unfold available_files in Hpre, Hs. rewrite Hdir in Hpre, Hs.
  exists (evs ++ [Close]). split; [exact Ht|].
  rewrite loaded_app. simpl. rewrite app_nil_r. auto.
Qed.


(** What the steps before the loop leave behind when they find files. *)
Lemma diffing_files w w0 executed file files :
  diffing exec row_check w = (w0, inr (executed, file :: files)) ->
  executed = applied_versions w
  /\ file :: files = available_files w
  /\ fs w0 = fs w
  /\ ledger (db w0) = Some (ledger_rows w)
  /\ connect_fault (db w) = None
  /\ close_fault (db w0) = close_fault (db w).
Proof.
  rewrite diffing_eq.
  destruct (early_failure w) as [[[d0 evs0] e]|] eqn:Hearly; [discriminate|].
  apply early_failure_none in Hearly as (Hc & _). cbn zeta.
  destruct (dir (fs w)) as [|e|entries] eqn:Hdir;
    try (destruct (mkdir_fault (fs w)); discriminate).
  intros H. injection H as <- <- Hf. rewrite Hf.
  cbn [after fs db]. rewrite ledger_ensured, close_fault_ensured.
  repeat split; auto.
Qed.

(** C1 (amended): when a statement of a pending script is rejected, the run
    stops there.  After the scripts before it, the run makes these calls and
    no other: it announces the script, reads the clock, loads the file,
    sends the statements up to the rejected one, writes the failure with the
    script's version and name to the error console twice, and closes the
    connection.  The ledger holds the rows it had and one row per pending
    script before the failing one; the failing script gets no row.  The run
    rejects with the database error itself (or with the error of [close],
    if closing fails). *)
Theorem failing_script_aborts_the_run w executed pre file post m content e :
  let w0 := fst (diffing exec row_check w) in
  let w1 := fst (migrate_files exec row_check clock executed pre 0 w0) in
  snd (diffing exec row_check w) = inr (executed, pre ++ file :: post) ->
  snd (migrate_files exec row_check clock executed pre 0 w0) = inr m ->
  pending executed file = true ->
  read_result (fs w) file = inr content ->
  snd (exec_all exec (statements_of content) (schema (db w1))) = Some e ->
  exists rows,
    map (fun row => (row_version row, row_name row)) rows
    = map (fun f => (version_of f, name_of f))
        (List.filter (pending executed) pre)
    /\ ledger (db w1) = Some (ledger_rows w ++ rows)
    /\ migrate exec row_check clock w
       = (after w1
            (set_schema
               (fst (exec_all exec (statements_of content) (schema (db w1))))
               (db w1))
            (S (clock_reads w1))
            ([ConsoleLog (MsgRunning (version_of file) (name_of file));
              ReadClock; ReadFile file]
             ++ map (fun s => Query (Statement s))
                  (attempted exec (statements_of content) (schema (db w1)))
             ++ [ConsoleError
                   (MsgMigrationFailed (version_of file) (name_of file) e);
                 ConsoleError (MsgFailed e); Close]),
          inl (match close_fault (db w) with Some c => c | None => e end))
    /\ ledger (db (fst (migrate exec row_check clock w)))
       = Some (ledger_rows w ++ rows).
Proof.
  intros w0 w1 Hd0 Hpre0 Hp Hread He.
  assert (Hpre : migrate_files exec row_check clock executed pre 0 w0
                 = (w1, inr m))
    by (rewrite <- Hpre0; apply surjective_pairing).
  assert (Hd : diffing exec row_check w
               = (w0, inr (executed, pre ++ file :: post)))
    by (rewrite <- Hd0; apply surjective_pairing).
  clearbody w1. clearbody w0. clear Hd0 Hpre0.
  assert (Hd0 : exists f fl, pre ++ file :: post = f :: fl).
  { destruct pre; simpl; eauto. }
  destruct Hd0 as (f & fl & Hfl). rewrite Hfl in Hd.
  destruct (diffing_files _ _ _ _ _ Hd) as (_ & _ & Hfs0 & Hl0 & _ & Hcl0).
  rewrite <- Hfl in Hd. clear f fl Hfl.
  pose proof (migrate_files_frame executed pre 0 w0) as Hfr.
  pose proof (migrate_files_ledger executed pre 0 w0 _ Hl0) as Hlg.
  cbn zeta in Hfr, Hlg. rewrite Hpre in Hfr, Hlg. cbn [fst snd] in Hfr, Hlg.
  destruct Hfr as (Hfs1 & _ & Hcl1).
  destruct Hlg as (rows & Hl1 & _ & _ & Hs).
  destruct (Hs m eq_refl) as [Hrows _].
  exists rows. split; [exact Hrows|]. split; [exact Hl1|].
  assert (Hmig : migrate exec row_check clock w
       = (after w1
            (set_schema
               (fst (exec_all exec (statements_of content) (schema (db w1))))
               (db w1))
            (S (clock_reads w1))
            ([ConsoleLog (MsgRunning (version_of file) (name_of file));
              ReadClock; ReadFile file]
             ++ map (fun s => Query (Statement s))
                  (attempted exec (statements_of content) (schema (db w1)))
             ++ [ConsoleError
                   (MsgMigrationFailed (version_of file) (name_of file) e);
                 ConsoleError (MsgFailed e); Close]),
          inl (match close_fault (db w) with Some c => c | None => e end))).
  { rewrite migrate_eq, Hd. cbn [fst snd].
    rewrite migrate_files_app, Hpre, migrate_files_cons, Hp, runMigration_eq.
    cbn zeta. cbn [after fs db clock_reads schema].
    rewrite Hfs1, Hfs0, Hread, He.
    cbn [after fs db clock_reads schema trace close_fault set_schema].
    rewrite Hcl1, Hcl0. f_equal.
    - apply world_eq; simpl; auto.
      repeat (rewrite <- app_assoc; simpl). reflexivity.
    - destruct (close_fault (db w)); reflexivity. }
  split; [exact Hmig|]. rewrite Hmig. exact Hl1.
Qed.

(** ** Running twice *)

Lemma ensured_some d rows : ledger d = Some rows -> ensured d = d.
Proof. unfold ensured. intros ->. reflexivity. Qed.

Lemma connect_fault_ensured d : connect_fault (ensured d) = connect_fault d.
Proof. unfold ensured. destruct (ledger d); reflexivity. Qed.

Lemma run_event_applies_nothing executed files ev :
  Forall (fun file => version_of file ∈ executed) files ->
  run_event executed files ev -> applies_nothing ev.
Proof.
  intros Hall H.
  assert (Hno : forall f, f ∈ files ->
                  JS.includes (version_of f) executed = false -> False).
  { intros f Hf Hinc. rewrite Forall_forall in Hall.
    apply Hall, includes_true in Hf. congruence. }
  inversion H; subst; simpl; eauto.
  destruct m; auto. eapply H0; reflexivity.
Qed.

(** A run that has nothing pending leaves the database as it is, and
    resolves as soon as its collaborators answer. *)
Lemma migrate_up_to_date w rows :
  ledger (db w) = Some rows ->
  Forall (fun file => version_of file ∈ versions_of rows) (available_files w) ->
  db (fst (migrate exec row_check clock w)) = db w
  /\ (early_failure w = None ->
      close_fault (db w) = None ->
      (exists entries, dir (fs w) = Listing entries)
      \/ mkdir_fault (fs w) = None ->
      snd (migrate exec row_check clock w) = inr tt).
Proof.
  intros Hl Hall.
  assert (Hskip : Forall (fun file => pending (applied_versions w) file = false)
                    (available_files w)).
  { eapply Forall_impl; [exact Hall|]. intros f Hf. apply pending_false.
    unfold applied_versions. rewrite Hl. exact Hf. }
  rewrite migrate_eq, diffing_eq.
  destruct (early_failure w) as [[[d0 evs0] e0]|] eqn:Hearly.
  { destruct (early_failure_some _ _ _ _ Hearly) as (Hd0 & _).
    rewrite (ensured_some _ _ Hl) in Hd0. simpl.
    split; [destruct Hd0; auto|discriminate]. }
  cbn zeta. rewrite (ensured_some _ _ Hl).
  destruct (dir (fs w)) as [|e|entries] eqn:Hdir.
  1, 2: destruct (mkdir_fault (fs w)) as [e'|] eqn:Hm; simpl;
    (split; [reflexivity|]); intros _ Hcl [[entries Hd]|Hd];
    try discriminate; rewrite Hcl; reflexivity.
  cbn [fst snd]. rewrite (migrate_files_skip _ _ _ _ Hskip).
  cbn [after db fst snd Nat.eqb]. split; [reflexivity|].
  intros _ -> _. reflexivity.
Qed.

(** What a run that resolves leaves behind: every available file has its
    version in the ledger, and the collaborators answer as before. *)
Lemma migrate_resolves w w1 :
  migrate exec row_check clock w = (w1, inr tt) ->
  early_failure w1 = None
  /\ close_fault (db w1) = None
  /\ ((exists entries, dir (fs w1) = Listing entries)
      \/ mkdir_fault (fs w1) = None)
  /\ exists rows,
       ledger (db w1) = Some rows
       /\ Forall (fun file => version_of file ∈ versions_of rows)
            (available_files w1).
Proof.
  assert (Hkeep : forall w' : World Schema,
             connect_fault (db w') = connect_fault (db w) ->
             create_fault (db w') = create_fault (db w) ->
             select_fault (db w') = select_fault (db w) ->
             early_failure w = None -> early_failure w' = None).
  { intros w' H1 H2 H3 H. apply early_failure_none.
    apply early_failure_none in H. rewrite H1, H2, H3. exact H. }
  rewrite migrate_eq, diffing_eq.
  destruct (early_failure w) as [[[d0 evs0] e0]|] eqn:Hc.
  { simpl. destruct (close_fault d0); discriminate. }
  cbn zeta.
  destruct (dir (fs w)) as [|e|entries] eqn:Hdir.
  1, 2: destruct (mkdir_fault (fs w)) as [e'|] eqn:Hm; simpl;
    [destruct (close_fault (ensured (db w))); discriminate|];
    destruct (close_fault (ensured (db w))) eqn:Hcl; [discriminate|];
    intros H; injection H as <-; cbn [db fs after set_fs];
    rewrite ledger_ensured;
    (split; [apply Hkeep; cbn [db after set_fs];
             auto using connect_fault_ensured, create_fault_ensured,
               select_fault_ensured|]);
    (split; [exact Hcl|]);
    unfold mkdir, bind, emit; cbn [fst snd after fs]; rewrite Hm, Hdir;
    cbn [fst fs set_fs mkdir_fault dir];
    (split; [eauto|]); eexists; (split; [reflexivity|]);
    unfold available_files; cbn [fs set_fs dir fst after]; rewrite ?Hdir;
    cbn [List.filter]; rewrite ?sort_nil; apply Forall_nil_2.
  cbn [fst snd].
  match goal with
  | |- context [migrate_files _ _ _ ?ex ?fl 0%nat ?w0] =>
      pose proof (migrate_files_frame ex fl 0%nat w0) as Hfr;
      pose proof (migrate_files_faults ex fl 0%nat w0) as Hfa;
      pose proof (migrate_files_ledger ex fl 0%nat w0 (ledger_rows w)) as Hlg;
      cbn zeta in Hfr, Hfa, Hlg;
      destruct (migrate_files exec row_check clock ex fl 0%nat w0)
        as [w2 [e|m]]
  end; cbn [fst snd after fs db] in *.
  { destruct (close_fault (db w2)); discriminate. }
  destruct (close_fault (db w2)) eqn:Hcl; [discriminate|].
  intros H. injection H as <-. cbn [db fs after].
  destruct Hfr as (Hfs & Hcf & _). destruct Hfa as (Hcr & Hse).
  rewrite connect_fault_ensured in Hcf.
  rewrite create_fault_ensured in Hcr. rewrite select_fault_ensured in Hse.
  destruct Hlg as (rows & Hl2 & _ & _ & Hs); [apply ledger_ensured|].
  destruct (Hs m eq_refl) as [Hrows _].
  split; [apply Hkeep; auto|]. split; [exact Hcl|].
  split; [left; exists entries; rewrite Hfs; exact Hdir|].
  exists (ledger_rows w ++ rows). split; [exact Hl2|].
  unfold available_files at 1. cbn [fs after]. rewrite Hfs.
  fold (available_files w). apply Forall_forall. intros f Hf.
  unfold versions_of. rewrite map_app. apply elem_of_app.
  destruct (pending (applied_versions w) f) eqn:Hp.
  - right.
    assert (Hin : (version_of f, name_of f)
                  ∈ map (fun file => (version_of file, name_of file))
                      (List.filter (pending (applied_versions w))
                         (available_files w))).
    { apply list_elem_of_In, in_map_iff. exists f. split; [reflexivity|].
      apply filter_In. split; [apply list_elem_of_In; exact Hf|exact Hp]. }
    rewrite <- Hrows in Hin.
    apply list_elem_of_In, in_map_iff in Hin. destruct Hin as (row & Heq & Hrow).
    injection Heq as Hv _. rewrite <- Hv.
    apply list_elem_of_In, in_map. exact Hrow.
  - left. apply pending_false in Hp. rewrite applied_versions_rows in Hp.
    exact Hp.
Qed.

(** C4 (amended): after a run of [migrate] that resolved, a second run
    against the same ledger and the same directory applies nothing: it
    leaves the database, ledger included, as it is, loads no file and sends
    no statement and no [INSERT], whatever its collaborators answer; run
    right after the first one, it resolves. *)
Theorem migrate_twice_is_idempotent w :
  let w1 := fst (migrate exec row_check clock w) in
  snd (migrate exec row_check clock w) = inr tt ->
  (forall w1',
     ledger (db w1') = ledger (db w1) ->
     dir (fs w1') = dir (fs w1) ->
     db (fst (migrate exec row_check clock w1')) = db w1'
     /\ exists evs,
          trace (fst (migrate exec row_check clock w1')) = trace w1' ++ evs
          /\ Forall applies_nothing evs)
  /\ snd (migrate exec row_check clock w1) = inr tt.
Proof.
  intros w1 H0.
  assert (H : migrate exec row_check clock w = (w1, inr tt))
    by (rewrite <- H0; apply surjective_pairing).
  destruct (migrate_resolves w w1 H) as (Hc & Hcl & Hdir & rows & Hl & Hall).
  split.
  - intros w1' Hl' Hd'.
    assert (Hav : available_files w1' = available_files w1)
      by (unfold available_files; rewrite Hd'; reflexivity).
    rewrite Hl in Hl'.
    split.
    + apply (migrate_up_to_date w1' rows Hl'). rewrite Hav. exact Hall.
    + destruct (migrate_trace w1') as (evs & Ht & Hf & _).
      exists (evs ++ [Close]). split; [exact Ht|].
      apply Forall_app. split; [|repeat constructor].
      eapply Forall_impl; [exact Hf|].
      intros ev. apply run_event_applies_nothing.
      rewrite Hav. unfold applied_versions. rewrite Hl'. exact Hall.
  - apply (migrate_up_to_date w1 rows Hl Hall); assumption.
Qed.

(** ** Command line *)

(** C7 (amended): the [migrate] command never calls [process.exit]: a run
    that rejects has its error written to the error console and the script
    runs off its end, so the exit code is 0 whether the run failed or not.
    The [create] command without a name (absent or empty) writes a line to
    the error console and exits with code 1, before anything is created. *)
Theorem main_exit_codes w name :
  main exec row_check clock (Some (js "migrate")) name w
  = (match migrate exec row_check clock w with
     | (w1, inl e) =>
         after w1 (db w1) (clock_reads w1) [ConsoleError (MsgRejection e)]
     | (w1, inr _) => w1
     end, Returned)
  /\ exit_code (snd (main exec row_check clock (Some (js "migrate")) name w))
     = 0%Z
  /\ main exec row_check clock (Some (js "create")) None w
     = (after w (db w) (clock_reads w) [ConsoleError MsgProvideName], Exit 1)
  /\ main exec row_check clock (Some (js "create")) (Some []) w
     = (after w (db w) (clock_reads w) [ConsoleError MsgProvideName], Exit 1).
Proof.
  unfold main.
  rewrite (bool_decide_eq_true_2 (Some (js "migrate") = Some (js "migrate")))
    by reflexivity.
  rewrite (bool_decide_eq_false_2 (Some (js "create") = Some (js "migrate")))
    by discriminate.
  rewrite (bool_decide_eq_true_2 (Some (js "create") = Some (js "create")))
    by reflexivity.
  repeat split.
Qed.

(** ** File names, versions and names *)

(** C8: the file [a.sqlb.sql] passes the suffix filter of
    [getMigrationFiles], and the version [migrate] derives from it is
    [ab.sql]: [replace] removes the first [.sql] of the name, not its
    extension, so the version is not the file name without its extension,
    [a.sqlb]. *)
Theorem version_of_suffix_in_the_middle :
  JS.endsWith (js ".sql") (js "a.sqlb.sql") = true
  /\ version_of (js "a.sqlb.sql") = js "ab.sql"
  /\ version_of (js "a.sqlb.sql") <> js "a.sqlb"
  /\ name_of (js "a_b.sqlc.sql") = js "a bc.sql".
Proof. repeat split; try reflexivity. discriminate. Qed.

Lemma name_of_version_of file :
  name_of file = JS.replace_char_g 95 (js " ") (version_of file).
Proof. reflexivity. Qed.

(** When [.sql] occurs in the file name at its end only, the version is the
    file name without its extension. *)
Lemma version_of_extension base :
  JS.str_includes (js ".sql") base = false ->
  version_of (base ++ js ".sql") = base.
Proof.
  unfold version_of. induction base as [|c base IH]; intros H.
  - reflexivity.
  - cbn [JS.str_includes] in H. apply orb_false_iff in H as [Hs Hi].
    rewrite <- app_comm_cons. cbn [JS.replace].
    replace (JS.startsWith (js ".sql") (c :: base ++ js ".sql")) with false.
    + f_equal. apply IH, Hi.
    + symmetry. revert Hs.
      destruct base as [|c1 [|c2 [|c3 base]]]; simpl;
        repeat (match goal with
                | |- context [N.eqb ?a ?b] => destruct (N.eqb_spec a b); subst
                end; simpl; try reflexivity; try discriminate);
        auto.
Qed.

(** ** Authoring *)

Lemma pad_length width n : length (pad width n) = width.
Proof.
  revert n. induction width as [|width IH]; intros n; simpl; [reflexivity|].
  rewrite List.length_app, IH. simpl. lia.
Qed.

Lemma pad_digits width n : Forall (fun c => JS.is_digit c = true) (pad width n).
Proof.
  revert n. induction width as [|width IH]; intros n; cbn [pad];
    [constructor|].
  apply Forall_app. split; [apply IH|]. constructor; [|constructor].
  unfold JS.is_digit.
  assert (Hr : n mod 10 < 10) by (apply N.mod_lt; discriminate).
  revert Hr. generalize (n mod 10). intros r Hr.
  apply andb_true_iff. split; apply N.leb_le; lia.
Qed.

Lemma filter_all (f : N -> bool) l :
  Forall (fun c => f c = true) l -> List.filter f l = l.
Proof.
  induction 1 as [|c l Hc _ IH]; simpl; [reflexivity|].
  rewrite Hc, IH. reflexivity.
Qed.

Lemma timestamp_digits (t : DateTime) :
  length (timestamp_of t) = 14%nat
  /\ Forall (fun c => JS.is_digit c = true) (timestamp_of t).
Proof.
  unfold timestamp_of. split.
  - rewrite !List.length_app, !pad_length. reflexivity.
  - rewrite !Forall_app. repeat split; apply pad_digits.
Qed.

(** The timestamp [createMigration] cuts out of [toISOString] is the clock
    reading down to the second, for a year of four digits. *)
Lemma timestamp_of_toISOString (t : DateTime) :
  (0 <= year t <= 9999)%Z ->
  JS.slice0 14 (JS.remove_non_digits (toISOString t)) = timestamp_of t.
Proof.
  intros Hy. unfold toISOString, JS.remove_non_digits, JS.slice0.
  replace ((0 <=? year t) && (year t <=? 9999))%Z with true
    by (symmetry; apply andb_true_iff; split; apply Z.leb_le; lia).
  rewrite !List.filter_app.
  rewrite !(filter_all _ _ (pad_digits _ _)).
  change (List.filter JS.is_digit (js "-")) with (@nil N).
  change (List.filter JS.is_digit (js "T")) with (@nil N).
  change (List.filter JS.is_digit (js ":")) with (@nil N).
  change (List.filter JS.is_digit (js ".")) with (@nil N).
  change (List.filter JS.is_digit (js "Z")) with (@nil N).
  cbn [app]. rewrite app_nil_r.
  unfold timestamp_of. rewrite !app_assoc.
  apply take_app_length'.
  rewrite !List.length_app, !pad_length. reflexivity.
Qed.

Lemma replace_char_g_app c (d : jsstring) s s' :
  JS.replace_char_g c d (s ++ s')
  = JS.replace_char_g c d s ++ JS.replace_char_g c d s'.
Proof. unfold JS.replace_char_g. rewrite map_app. apply concat_app. Qed.

Lemma replace_char_g_length c x s :
  length (JS.replace_char_g c [x] s) = length s.
Proof.
  unfold JS.replace_char_g. induction s as [|y s IH]; simpl; [reflexivity|].
  rewrite List.length_app, IH. destruct (y =? c); reflexivity.
Qed.

(** Putting spaces back for the separators undoes the normalization of a
    name that has no separator of its own, up to the width of its runs of
    white space. *)
Lemma unnormalize_normalize in_run name :
  Forall (fun c => c <> 95) name ->
  JS.replace_char_g 95 (js " ")
    (JS.replace_space_runs_from in_run (js "_") name)
  = JS.replace_space_runs_from in_run (js " ") name.
Proof.
  intros H. revert in_run.
  induction H as [|c name Hc _ IH]; intros in_run; [reflexivity|].
  cbn [JS.replace_space_runs_from].
  destruct (JS.is_space c).
  - rewrite replace_char_g_app, IH. destruct in_run; reflexivity.
  - change (c :: JS.replace_space_runs_from false (js "_") name)
      with ([c] ++ JS.replace_space_runs_from false (js "_") name).
    rewrite replace_char_g_app, IH.
    unfold JS.replace_char_g. simpl.
    destruct (N.eqb_spec c 95); [contradiction|reflexivity].
Qed.

Lemma str_includes_skip a b :
  Forall (fun c => c <> 46) a ->
  JS.str_includes (js ".sql") (a ++ b) = JS.str_includes (js ".sql") b.
Proof.
  induction 1 as [|c a Hc _ IH]; [reflexivity|].
  rewrite <- app_comm_cons. cbn [JS.str_includes]. rewrite IH.
  replace (JS.startsWith (js ".sql") (c :: a ++ b)) with false; [reflexivity|].
  js_lit ".sql"%string. cbn [JS.startsWith].
  destruct (N.eqb_spec 46 c); [congruence|reflexivity].
Qed.

Lemma startsWith_normalized pat s :
  Forall (fun p => JS.is_space p = false /\ p <> 95) pat ->
  JS.startsWith pat (JS.replace_space_runs_from false (js "_") s) = true ->
  JS.startsWith pat s = true.
Proof.
  intros H. revert s.
  induction H as [|p pat [Hsp Hne] _ IH]; intros s Hs; [reflexivity|].
  destruct s as [|c s]; [discriminate|].
  cbn [JS.replace_space_runs_from] in Hs.
  destruct (JS.is_space c) eqn:Hc.
  - simpl in Hs. apply andb_true_iff in Hs as [Hs _].
    apply N.eqb_eq in Hs. contradiction.
  - simpl in Hs. apply andb_true_iff in Hs as [Hpc Hs].
    simpl. rewrite Hpc. simpl. apply IH, Hs.
Qed.

Lemma str_includes_normalized in_run s :
  JS.str_includes (js ".sql") s = false ->
  JS.str_includes (js ".sql")
    (JS.replace_space_runs_from in_run (js "_") s) = false.
Proof.
  revert in_run. induction s as [|c s IH]; intros in_run H; [reflexivity|].
  cbn [JS.str_includes] in H. apply orb_false_iff in H as [Hs Hi].
  cbn [JS.replace_space_runs_from].
  destruct (JS.is_space c) eqn:Hc.
  - destruct in_run; [apply IH, Hi|].
    change (js "_" ++ ?x) with (95 :: x). cbn [JS.str_includes].
    rewrite (IH true Hi). reflexivity.
  - cbn [JS.str_includes]. rewrite (IH false Hi), orb_false_r.
    destruct (JS.startsWith (js ".sql")
                (c :: JS.replace_space_runs_from false (js "_") s)) eqn:Hst;
      [|reflexivity].
    rewrite <- Hs. symmetry.
    apply startsWith_normalized.
    + repeat constructor; discriminate.
    + cbn [JS.replace_space_runs_from]. rewrite Hc. exact Hst.
Qed.

Lemma new_Date_eq w :
  new_Date clock w
  = (after w (db w) (S (clock_reads w)) [ReadClock],
     inr (clock (clock_reads w))).
Proof. reflexivity. Qed.

(** *** Paths *)

Lemma split_plain sep s :
  Forall (fun c => c <> sep) s -> JS.split sep s = [s].
Proof.
  induction 1 as [|c s Hc _ IH]; simpl; [reflexivity|].
  rewrite IH. destruct (N.eqb_spec c sep); [contradiction|reflexivity].
Qed.

Lemma migrationsPath_eq (f : FileSystem) :
  migrationsPath f = dirname f ++ [js "migrations"].
Proof.
  unfold migrationsPath, Path.join.
  change (JS.split 47 (js "migrations")) with [js "migrations"].
  cbn [Path.resolve].
  rewrite (bool_decide_eq_false_2 (js "migrations" = [])) by discriminate.
  rewrite (bool_decide_eq_false_2 (js "migrations" = js ".")) by discriminate.
  rewrite (bool_decide_eq_false_2 (js "migrations" = js "..")) by discriminate.
  cbn [orb rev]. rewrite rev_involutive. reflexivity.
Qed.

(** Joining a directory with a name that is one segment gives the entry of
    that name in the directory. *)
Lemma join_plain (base : Path.path) (rel : jsstring) :
  Forall (fun c => c <> 47) rel ->
  rel <> [] -> rel <> js "." -> rel <> js ".." ->
  Path.join base rel = base ++ [rel].
Proof.
  intros Hsep H0 H1 H2. unfold Path.join.
  rewrite (split_plain 47 rel Hsep). cbn [Path.resolve].
  rewrite (bool_decide_eq_false_2 _ H0), (bool_decide_eq_false_2 _ H1),
    (bool_decide_eq_false_2 _ H2).
  cbn [orb rev]. rewrite rev_involutive. reflexivity.
Qed.

Lemma entry_of_app (base : Path.path) (file : jsstring) :
  entry_of base (base ++ [file]) = Some file.
Proof.
  unfold entry_of. rewrite drop_app_length, take_app_length.
  rewrite bool_decide_eq_true_2 by reflexivity. reflexivity.
Qed.

Lemma write_error_entry (f : FileSystem) (file : jsstring) :
  write_error f (migrationsPath f ++ [file])
  = match dir f with
    | Absent => Some (FsError "ENOENT")
    | _ => write_fault f (migrationsPath f ++ [file])
    end.
Proof. unfold write_error. rewrite entry_of_app. reflexivity. Qed.

(** The cut of [toISOString] that [createMigration] takes is made of
    digits, whatever the year. *)
Lemma slice_digits (t : DateTime) :
  Forall (fun c => JS.is_digit c = true)
    (JS.slice0 14 (JS.remove_non_digits (toISOString t))).
Proof.
  unfold JS.slice0, JS.remove_non_digits.
  apply Forall_take, Forall_forall. intros c Hc.
  apply list_elem_of_In, filter_In in Hc as [_ Hc]. exact Hc.
Qed.

Lemma replace_space_runs_keeps (P : N -> Prop) in_run (rep name : jsstring) :
  Forall P rep -> Forall P name ->
  Forall P (JS.replace_space_runs_from in_run rep name).
Proof.
  intros Hrep H. revert in_run.
  induction H as [|c name Hc _ IH]; intros in_run; [constructor|].
  cbn [JS.replace_space_runs_from].
  destruct (JS.is_space c).
  - apply Forall_app. split; [destruct in_run; [constructor|exact Hrep]|].
    apply IH.
  - constructor; [exact Hc|apply IH].
Qed.

(** A file name made by [createMigration] from a name without path
    separator is one segment, and is the entry it names in the migrations
    directory. *)
Lemma join_file_name (base : Path.path) (stamp name : jsstring) :
  Forall (fun c => JS.is_digit c = true) stamp ->
  Forall (fun c => c <> 47) name ->
  Path.join base
    (stamp ++ js "_" ++ JS.replace_space_runs (js "_") name ++ js ".sql")
  = base
    ++ [stamp ++ js "_" ++ JS.replace_space_runs (js "_") name ++ js ".sql"].
Proof.
  intros Hdig Hname.
  assert (Hin : 95 ∈ stamp ++ js "_" ++ JS.replace_space_runs (js "_") name
                     ++ js ".sql").
  { apply elem_of_app. right. left. }
  apply join_plain.
  - rewrite !Forall_app. repeat split.
    + eapply Forall_impl; [exact Hdig|]. intros c Hc ->. discriminate.
    + repeat constructor; discriminate.
    + apply replace_space_runs_keeps; [repeat constructor; discriminate|].
      exact Hname.
    + repeat constructor; discriminate.
  - intros H. rewrite H in Hin. inversion Hin.
  - intros H. rewrite H in Hin. vm_compute in Hin.
    apply list_elem_of_singleton in Hin. discriminate.
  - intros H. rewrite H in Hin. vm_compute in Hin.
    apply elem_of_cons in Hin as [Hin|Hin]; [discriminate|].
    apply list_elem_of_singleton in Hin. discriminate.
Qed.

(** *** Well-formed strings *)

Lemma plain_not_surrogate c :
  c < 55296 ->
  JS.is_high_surrogate c = false /\ JS.is_low_surrogate c = false.
Proof.
  intros H. unfold JS.is_high_surrogate, JS.is_low_surrogate.
  split; apply andb_false_iff; left; apply N.leb_gt; lia.
Qed.

Lemma space_not_surrogate c :
  JS.is_space c = true ->
  JS.is_high_surrogate c = false /\ JS.is_low_surrogate c = false.
Proof.
  unfold JS.is_space, JS.is_high_surrogate, JS.is_low_surrogate.
  rewrite !orb_true_iff, !andb_true_iff, !andb_false_iff, !N.leb_le,
    !N.leb_gt, !N.eqb_eq.
  lia.
Qed.

Lemma well_formed_app after_high a b :
  JS.well_formed_from after_high a = true ->
  JS.isWellFormed b = true ->
  JS.well_formed_from after_high (a ++ b) = true.
Proof.
  intros Ha Hb. revert after_high Ha.
  induction a as [|c a IH]; intros [|] Ha; cbn [app JS.well_formed_from] in *;
    try discriminate; try exact Hb.
  - apply andb_true_iff in Ha as [-> Ha]. apply IH, Ha.
  - destruct (JS.is_high_surrogate c); [apply IH, Ha|].
    apply andb_true_iff in Ha as [-> Ha]. apply IH, Ha.
Qed.

Lemma well_formed_plain s :
  Forall (fun c => c < 55296) s -> JS.isWellFormed s = true.
Proof.
  unfold JS.isWellFormed.
  induction 1 as [|c s Hc _ IH]; cbn [JS.well_formed_from]; [reflexivity|].
  destruct (plain_not_surrogate c Hc) as [-> ->]. exact IH.
Qed.

Lemma plain_literal (l : jsstring) :
  forallb (fun c => c <? 55296) l = true -> Forall (fun c => c < 55296) l.
Proof.
  intros H. apply Forall_forall. intros c Hc.
  rewrite forallb_forall in H. apply list_elem_of_In, H in Hc.
  apply N.ltb_lt, Hc.
Qed.

(** A well-formed string is its own UTF-8 round trip. *)
Lemma to_well_formed_id s :
  (JS.well_formed_from false s = true -> JS.to_well_formed_from None s = s)
  /\ (forall h,
        JS.well_formed_from true s = true ->
        JS.to_well_formed_from (Some h) s = h :: s).
Proof.
  induction s as [|c s [IH0 IH1]]; cbn [JS.well_formed_from
    JS.to_well_formed_from]; split; try discriminate; try reflexivity.
  - destruct (JS.is_high_surrogate c); [intros H; apply IH1, H|].
    intros H. apply andb_true_iff in H as [Hl H].
    apply negb_true_iff in Hl. rewrite Hl, (IH0 H). reflexivity.
  - intros h H. apply andb_true_iff in H as [-> H].
    rewrite (IH0 H). reflexivity.
Qed.

Lemma toWellFormed_id s : JS.isWellFormed s = true -> JS.toWellFormed s = s.
Proof. apply to_well_formed_id. Qed.

(** Replacing the runs of white space keeps a string well-formed. *)
Lemma well_formed_normalized after_high in_run name :
  JS.well_formed_from after_high name = true ->
  JS.well_formed_from after_high
    (JS.replace_space_runs_from in_run (js "_") name) = true.
Proof.
  revert after_high in_run.
  induction name as [|c name IH]; intros after_high in_run H; [exact H|].
  cbn [JS.replace_space_runs_from].
  destruct (JS.is_space c) eqn:Hsp.
  - destruct (space_not_surrogate c Hsp) as [Hh Hl].
    cbn [JS.well_formed_from] in H. rewrite Hh, Hl in H.
    destruct after_high; [discriminate|]. cbn [negb andb] in H.
    destruct in_run; [apply IH, H|].
    change (js "_" ++ ?x) with (95 :: x). cbn [JS.well_formed_from].
    change (JS.is_high_surrogate 95) with false.
    change (JS.is_low_surrogate 95) with false.
    apply IH, H.
  - cbn [JS.well_formed_from] in *.
    destruct after_high.
    + apply andb_true_iff in H as [-> H]. apply IH, H.
    + destruct (JS.is_high_surrogate c); [apply IH, H|].
      apply andb_true_iff in H as [-> H]. apply IH, H.
Qed.

Lemma digits_plain l :
  Forall (fun c => JS.is_digit c = true) l -> Forall (fun c => c < 55296) l.
Proof.
  intros H. eapply Forall_impl; [exact H|]. intros c Hc.
  unfold JS.is_digit in Hc. apply andb_true_iff in Hc as [_ Hc].
  apply N.leb_le in Hc. lia.
Qed.

Lemma toISOString_plain (t : DateTime) :
  Forall (fun c => c < 55296) (toISOString t).
Proof.
  unfold toISOString. rewrite !Forall_app.
  repeat split;
    try (apply digits_plain, pad_digits);
    try (apply plain_literal; reflexivity).
  destruct ((0 <=? year t) && (year t <=? 9999))%Z;
    [apply digits_plain, pad_digits|].
  apply Forall_app. split; [|apply digits_plain, pad_digits].
  destruct (year t <? 0)%Z; apply plain_literal; reflexivity.
Qed.

(** The file name and the template made from a well-formed name are
    well-formed. *)
Lemma file_name_well_formed (stamp name : jsstring) :
  Forall (fun c => JS.is_digit c = true) stamp ->
  JS.isWellFormed name = true ->
  JS.isWellFormed
    (stamp ++ js "_" ++ JS.replace_space_runs (js "_") name ++ js ".sql")
  = true.
Proof.
  intros Hdig Hname.
  apply well_formed_app; [apply well_formed_plain, digits_plain, Hdig|].
  apply well_formed_app; [reflexivity|].
  apply well_formed_app; [|reflexivity].
  apply well_formed_normalized, Hname.
Qed.

Lemma template_well_formed name (t : DateTime) :
  JS.isWellFormed name = true ->
  JS.isWellFormed (template_of name (toISOString t)) = true.
Proof.
  intros Hname. unfold template_of.
  apply well_formed_app; [reflexivity|].
  apply well_formed_app; [exact Hname|].
  apply well_formed_plain. rewrite !Forall_app.
  repeat split;
    try apply toISOString_plain;
    apply plain_literal; reflexivity.
Qed.

(** What [createMigration] does: two clock readings, then the file is
    written at the path its name joins to, and the file name is returned
    unless the write is rejected. *)
Lemma createMigration_eq name w :
  createMigration clock name w
  = let fileName :=
      JS.slice0 14 (JS.remove_non_digits (toISOString (clock (clock_reads w))))
      ++ js "_" ++ JS.replace_space_runs (js "_") name ++ js ".sql" in
    let filePath := Path.join (migrationsPath (fs w)) fileName in
    let template :=
      template_of name (toISOString (clock (S (clock_reads w)))) in
    match write_error (fs w) filePath with
    | Some e =>
        (after w (db w) (S (S (clock_reads w)))
           [ReadClock; ReadClock; WriteFile filePath template], inl e)
    | None =>
        (set_fs (match entry_of (migrationsPath (fs w)) filePath with
                 | Some file =>
                     written (JS.toWellFormed file) (JS.toWellFormed template)
                       (fs w)
                 | None => fs w
                 end)
           (after w (db w) (S (S (clock_reads w)))
              [ReadClock; ReadClock; WriteFile filePath template;
               ConsoleLog (MsgCreated fileName)]),
         inr fileName)
    end.
Proof.
  unfold createMigration, bind at 1. rewrite new_Date_eq.
  unfold bind at 1, this_migrationsPath at 1.
  unfold bind at 1. rewrite new_Date_eq.
  cbn [after fs db clock_reads trace]. cbn zeta.
  unfold bind at 1, writeFile at 1, bind at 1. rewrite emit_eq.
  cbn [after fs db clock_reads trace].
  destruct (write_error (fs w) _) as [e|] eqn:Hw.
  - f_equal. apply world_eq; cbn [after fs db clock_reads trace]; auto.
    rewrite <- !app_assoc. reflexivity.
  - destruct (entry_of (migrationsPath (fs w)) _) as [file|];
      unfold bind, console_log, ret, emit;
      cbn [after fs db clock_reads trace set_fs fst snd]; f_equal;
      apply world_eq; cbn [after fs db clock_reads trace set_fs]; auto;
      rewrite <- !app_assoc; reflexivity.
Qed.

Lemma digit_not_dot l :
  Forall (fun c => JS.is_digit c = true) l -> Forall (fun c => c <> 46) l.
Proof.
  intros H. eapply Forall_impl; [exact H|]. intros c Hc ->. discriminate.
Qed.

(** C9 (amended): for a well-formed name without path separator, a clock
    reading with a year of four digits and a write that is not rejected
    (the migrations directory exists and the file system accepts the file),
    [createMigration] writes the template to the entry of the migrations
    directory named by, and returns, the file name made of the fourteen
    digits of the reading down to the second, a separator, the name with
    each run of white space replaced by one separator, and the suffix.
    When the name does not contain the suffix [.sql], the name [migrate]
    derives from that file, without its version prefix, is the input with
    each run of white space replaced by one separator and every separator
    then replaced by a space; for an input without separators this is the
    input with each run of white space replaced by one space. *)
Theorem createMigration_file_name w name :
  let t := clock (clock_reads w) in
  let fileName :=
    timestamp_of t ++ js "_" ++ JS.replace_space_runs (js "_") name
    ++ js ".sql" in
  let template := template_of name (toISOString (clock (S (clock_reads w)))) in
  let w' := fst (createMigration clock name w) in
  JS.isWellFormed name = true ->
  Forall (fun c => c <> 47) name ->
  (0 <= year t <= 9999)%Z ->
  dir (fs w) <> Absent ->
  write_fault (fs w) (migrationsPath (fs w) ++ [fileName]) = None ->
  snd (createMigration clock name w) = inr fileName
  /\ length (timestamp_of t) = 14%nat
  /\ Forall (fun c => JS.is_digit c = true) (timestamp_of t)
  /\ fs w' = written fileName template (fs w)
  /\ read_result (fs w') fileName = inr template
  /\ (forall entries,
        dir (fs w) = Listing entries ->
        exists entries',
          dir (fs w') = Listing entries' /\ fileName ∈ entries')
  /\ (JS.str_includes (js ".sql") name = false ->
      version_of fileName
      = timestamp_of t ++ js "_" ++ JS.replace_space_runs (js "_") name
      /\ recovered_name fileName
         = JS.replace_char_g 95 (js " ")
             (JS.replace_space_runs (js "_") name)
      /\ (Forall (fun c => c <> 95) name ->
          recovered_name fileName = JS.replace_space_runs (js " ") name)).
Proof.
  intros t fileName template w' Hwf Hsep Hy Hdir Hw. subst w'.
  destruct (timestamp_digits t) as [Hlen Hdig].
  pose proof (createMigration_eq name w) as E. cbn zeta in E.
  rewrite (timestamp_of_toISOString (clock (clock_reads w)) Hy) in E.
  fold t in E.
  rewrite (join_file_name _ _ _ Hdig Hsep) in E.
  rewrite (toWellFormed_id _ (template_well_formed name _ Hwf)) in E.
  fold fileName in E.
  assert (Hwe : write_error (fs w) (migrationsPath (fs w) ++ [fileName])
                = None).
  { rewrite write_error_entry.
    destruct (dir (fs w)); [contradiction|exact Hw..]. }
  rewrite Hwe, entry_of_app in E. fold template in E.
  rewrite (toWellFormed_id fileName (file_name_well_formed _ _ Hdig Hwf)) in E.
  rewrite E. cbn [fst snd fs set_fs].
  split; [reflexivity|]. split; [exact Hlen|].
  split; [exact Hdig|]. split; [reflexivity|]. split.
  { cbn [written read_result].
    rewrite bool_decide_eq_true_2 by reflexivity. reflexivity. }
  split.
  { intros entries Hd. cbn [written dir]. rewrite Hd.
    destruct (decide (fileName ∈ entries)) as [Hin|Hin];
      [rewrite (bool_decide_eq_true_2 _ Hin)
      |rewrite (bool_decide_eq_false_2 _ Hin)];
      eexists; (split; [reflexivity|]); [exact Hin|].
    apply elem_of_app. right. left. }
  intros Hsql.
  assert (Hv : version_of fileName
               = timestamp_of t ++ js "_"
                 ++ JS.replace_space_runs (js "_") name).
  { unfold fileName. rewrite !app_assoc. apply version_of_extension.
    rewrite <- app_assoc. rewrite str_includes_skip by (apply digit_not_dot, Hdig).
    change (js "_" ++ ?x) with ([95] ++ x).
    rewrite str_includes_skip by (repeat constructor; discriminate).
    apply str_includes_normalized, Hsql. }
  assert (Hr : recovered_name fileName
               = JS.replace_char_g 95 (js " ")
                   (JS.replace_space_runs (js "_") name)).
  { unfold recovered_name. rewrite name_of_version_of, Hv.
    rewrite app_assoc, replace_char_g_app.
    apply drop_app_length'.
    change (js " ") with [32].
    rewrite replace_char_g_length, List.length_app, Hlen. reflexivity. }
  split; [exact Hv|]. split; [exact Hr|].
  intros Hsep'. rewrite Hr. apply unnormalize_normalize, Hsep'.
Qed.

(** * Further properties of the engine *)

(** ** The statements of a script *)

Lemma trimStart_keeps (P : N -> Prop) s :
  Forall P s -> Forall P (JS.trimStart s).
Proof.
  induction 1 as [|c s Hc Hs IH]; simpl; [constructor|].
  destruct (JS.is_space c); [exact IH|constructor; assumption].
Qed.

Lemma trimStart_head s :
  match JS.trimStart s with
  | [] => True
  | c :: _ => JS.is_space c = false
  end.
Proof.
  induction s as [|c s IH]; simpl; [exact I|].
  destruct (JS.is_space c) eqn:Hc; [exact IH|exact Hc].
Qed.

Lemma trimStart_fixed s :
  match s with [] => True | c :: _ => JS.is_space c = false end ->
  JS.trimStart s = s.
Proof. destruct s as [|c s]; simpl; [reflexivity|]. intros ->. reflexivity. Qed.

Lemma trimStart_idempotent s : JS.trimStart (JS.trimStart s) = JS.trimStart s.
Proof. apply trimStart_fixed, trimStart_head. Qed.

Lemma trimStart_snoc s c :
  JS.is_space c = false -> JS.trimStart (s ++ [c]) = JS.trimStart s ++ [c].
Proof.
  intros Hc. induction s as [|x s IH]; simpl; [rewrite Hc; reflexivity|].
  destruct (JS.is_space x); [exact IH|reflexivity].
Qed.

Lemma trimEnd_cons c s :
  JS.is_space c = false -> JS.trimEnd (c :: s) = c :: JS.trimEnd s.
Proof.
  intros Hc. unfold JS.trimEnd. simpl.
  rewrite (trimStart_snoc _ _ Hc), rev_app_distr. reflexivity.
Qed.

Lemma trimEnd_idempotent s : JS.trimEnd (JS.trimEnd s) = JS.trimEnd s.
Proof.
  unfold JS.trimEnd. rewrite rev_involutive, trimStart_idempotent. reflexivity.
Qed.

Lemma trimEnd_keeps (P : N -> Prop) s : Forall P s -> Forall P (JS.trimEnd s).
Proof.
  intros H. unfold JS.trimEnd.
  apply Forall_rev, trimStart_keeps, Forall_rev, H.
Qed.

Lemma trim_head s :
  match JS.trim s with
  | [] => True
  | c :: _ => JS.is_space c = false
  end.
Proof.
  unfold JS.trim. pose proof (trimStart_head s) as H.
  destruct (JS.trimStart s) as [|c t]; [exact I|].
  rewrite (trimEnd_cons _ _ H). exact H.
Qed.

(** [trim] is idempotent: a trimmed string has nothing left to strip. *)
Lemma trim_idempotent s : JS.trim (JS.trim s) = JS.trim s.
Proof.
  unfold JS.trim at 1. rewrite (trimStart_fixed _ (trim_head s)).
  unfold JS.trim. apply trimEnd_idempotent.
Qed.

Lemma trim_keeps (P : N -> Prop) s : Forall P s -> Forall P (JS.trim s).
Proof. intros H. apply trimEnd_keeps, trimStart_keeps, H. Qed.

Lemma split_pieces sep s : Forall (Forall (fun c => c <> sep)) (JS.split sep s).
Proof.
  induction s as [|c s IH]; simpl; [repeat constructor|].
  destruct (N.eqb_spec c sep) as [->|Hne]; [constructor; [constructor|exact IH]|].
  destruct (JS.split sep s) as [|p ps]; [repeat constructor; exact Hne|].
  inversion IH; subst. constructor; [constructor; assumption|assumption].
Qed.

(** X1: every statement [runMigration] gets from a script is a non-empty
    fragment without a semicolon and without white space at either end, and
    the guard [if (statement.trim())] of the loop lets every one of them
    through to the database. *)
Theorem statements_are_trimmed_fragments content :
  Forall (fun statement =>
            statement <> []
            /\ JS.trim statement = statement
            /\ Forall (fun c => c <> 59) statement
            /\ sent statement = true)
    (statements_of content).
Proof.
  unfold statements_of. apply Forall_forall. intros st Hin.
  apply list_elem_of_In, filter_In in Hin as [Hin Hlen].
  apply in_map_iff in Hin as (piece & <- & Hpiece).
  assert (Hne : JS.trim piece <> [])
    by (intros Heq; rewrite Heq in Hlen; discriminate).
  split; [exact Hne|]. split; [apply trim_idempotent|]. split.
  - apply trim_keeps.
    pose proof (split_pieces 59 content) as Hall.
    rewrite Forall_forall in Hall. apply Hall, list_elem_of_In, Hpiece.
  - unfold sent. rewrite trim_idempotent.
    destruct (JS.trim piece); [contradiction|reflexivity].
Qed.

Lemma trimStart_spaces s :
  Forall (fun c => JS.is_space c = true) s -> JS.trimStart s = [].
Proof. induction 1 as [|c s Hc _ IH]; simpl; [reflexivity|]. rewrite Hc. exact IH. Qed.

Lemma split_blank s :
  Forall (fun c => JS.is_space c = true \/ c = 59) s ->
  Forall (Forall (fun c => JS.is_space c = true)) (JS.split 59 s).
Proof.
  induction 1 as [|c s Hc _ IH]; simpl; [repeat constructor|].
  destruct (N.eqb_spec c 59) as [->|Hne]; [constructor; [constructor|exact IH]|].
  destruct Hc as [Hc|Hc]; [|contradiction].
  destruct (JS.split 59 s) as [|p ps]; [repeat constructor; exact Hc|].
  inversion IH; subst. constructor; [constructor; assumption|assumption].
Qed.

(** A script made of white space and semicolons only, the empty file
    included, has no statement. *)
Lemma statements_of_blank content :
  Forall (fun c => JS.is_space c = true \/ c = 59) content ->
  statements_of content = [].
Proof.
  intros H. unfold statements_of. pose proof (split_blank content H) as Hs.
  induction Hs as [|p ps Hp _ IH]; simpl; [reflexivity|].
  unfold JS.trim at 1. rewrite (trimStart_spaces p Hp). simpl. exact IH.
Qed.


(** ** One script: the other ways [runMigration] ends *)

(** X2: a script without statements (white space and semicolons only, the
    empty file included) is applied as a no-op: nothing is sent to the
    database but the [INSERT], and the script is recorded with the time
    between the two clock readings. *)
Theorem blank_script_is_recorded file v n w content rows :
  let t := (epoch_ms (clock (S (clock_reads w)))
            - epoch_ms (clock (clock_reads w)))%Z in
  read_result (fs w) file = inr content ->
  Forall (fun c => JS.is_space c = true \/ c = 59) content ->
  ledger (db w) = Some rows ->
  v ∉ versions_of rows ->
  row_check (row_of v n t) = None ->
  runMigration exec row_check clock file v n w
  = (after w (set_ledger (Some (rows ++ [row_of v n t])) (db w))
       (S (S (clock_reads w)))
       [ReadClock; ReadFile file; ReadClock; Query (InsertMigration v n t);
        ConsoleLog (MsgExecuted v n t)],
     inr tt).
Proof.
  intros t Hread Hblank Hl Hnew Hrow.
  rewrite runMigration_eq. cbn zeta.
  rewrite Hread, (statements_of_blank content Hblank).
  cbn [exec_all attempted fst snd map app]. rewrite set_schema_same.
  cbn [run_query]. rewrite Hl.
  rewrite (bool_decide_eq_false_2 _ Hnew).
  fold t. fold (row_of v n t). rewrite Hrow. reflexivity.
Qed.

(** X3: when all statements of a script succeed but its version is in the
    ledger already, [runMigration] has executed the statements before the
    [INSERT] is refused as a unique violation: the effects of the statements
    stay, the ledger is as it was, and the call rejects with error [23505]. *)
Theorem duplicate_version_runs_then_rejects file v n w content rows :
  let statements := statements_of content in
  let t := (epoch_ms (clock (S (clock_reads w)))
            - epoch_ms (clock (clock_reads w)))%Z in
  read_result (fs w) file = inr content ->
  snd (exec_all exec statements (schema (db w))) = None ->
  ledger (db w) = Some rows ->
  v ∈ versions_of rows ->
  runMigration exec row_check clock file v n w
  = (after w
       (set_schema (fst (exec_all exec statements (schema (db w)))) (db w))
       (S (S (clock_reads w)))
       (ReadClock :: ReadFile file ::
        map (fun s => Query (Statement s))
          (attempted exec statements (schema (db w)))
        ++ [ReadClock; Query (InsertMigration v n t);
            ConsoleError (MsgMigrationFailed v n (DbError "23505"))]),
     inl (DbError "23505")).
Proof.
  intros statements t Hread Hok Hl Hdup.
  rewrite runMigration_eq. cbn zeta. rewrite Hread. fold statements.
  rewrite Hok. cbn [run_query]. rewrite ledger_set_schema, Hl.
  rewrite (bool_decide_eq_true_2 _ Hdup). reflexivity.
Qed.

(** ** The other ways a run ends *)

(** X4: when the connection is refused the run stops at once: the ledger
    table is not created, nothing is listed, loaded or sent, the world is as
    before but for the trace, and the run rejects with the connection error
    after closing the connection (or with the error of [close]). *)
Theorem refused_connection_aborts_the_run w e :
  connect_fault (db w) = Some e ->
  migrate exec row_check clock w
  = (after w (db w) (clock_reads w)
       [Connect; ConsoleError (MsgInitFailed e); ConsoleError (MsgFailed e);
        Close],
     inl (match close_fault (db w) with Some c => c | None => e end)).
Proof.
  intros Hc. rewrite migrate_eq, diffing_eq. unfold early_failure.
  rewrite Hc. cbn [after db clock_reads]. f_equal.
  - apply world_eq; cbn [after fs db clock_reads trace]; auto.
    rewrite <- !app_assoc. reflexivity.
  - destruct (close_fault (db w)); reflexivity.
Qed.

(** X5: when a listed script cannot be read any more (it vanished after the
    listing), the run stops there: after the scripts before it the run only
    announces the script, reads the clock, tries to load the file, writes
    the failure to the error console and closes the connection.  No
    statement is sent and no row is added for it, and the run rejects with
    the error of the file system (or with the error of [close]). *)
Theorem vanished_script_aborts_the_run w executed pre file post m e :
  let w0 := fst (diffing exec row_check w) in
  let w1 := fst (migrate_files exec row_check clock executed pre 0 w0) in
  snd (diffing exec row_check w) = inr (executed, pre ++ file :: post) ->
  snd (migrate_files exec row_check clock executed pre 0 w0) = inr m ->
  pending executed file = true ->
  read_result (fs w) file = inl e ->
  migrate exec row_check clock w
  = (after w1 (db w1) (S (clock_reads w1))
       [ConsoleLog (MsgRunning (version_of file) (name_of file));
        ReadClock; ReadFile file;
        ConsoleError (MsgMigrationFailed (version_of file) (name_of file) e);
        ConsoleError (MsgFailed e); Close],
     inl (match close_fault (db w) with Some c => c | None => e end)).
Proof.
  intros w0 w1 Hd0 Hpre0 Hp Hread.
  assert (Hpre : migrate_files exec row_check clock executed pre 0 w0
                 = (w1, inr m))
    by (rewrite <- Hpre0; apply surjective_pairing).
  assert (Hd : diffing exec row_check w
               = (w0, inr (executed, pre ++ file :: post)))
    by (rewrite <- Hd0; apply surjective_pairing).
  clearbody w1. clearbody w0. clear Hd0 Hpre0.
  assert (Hd0 : exists f fl, pre ++ file :: post = f :: fl)
    by (destruct pre; simpl; eauto).
  destruct Hd0 as (f & fl & Hfl). rewrite Hfl in Hd.
  destruct (diffing_files _ _ _ _ _ Hd) as (_ & _ & Hfs0 & _ & _ & Hcl0).
  rewrite <- Hfl in Hd. clear f fl Hfl.
  pose proof (migrate_files_frame executed pre 0 w0) as Hfr.
  cbn zeta in Hfr. rewrite Hpre in Hfr. cbn [fst] in Hfr.
  destruct Hfr as (Hfs1 & _ & Hcl1).
  rewrite migrate_eq, Hd. cbn [fst snd].
  rewrite migrate_files_app, Hpre, migrate_files_cons, Hp, runMigration_eq.
  cbn zeta. cbn [after fs db clock_reads].
  rewrite Hfs1, Hfs0, Hread.
  cbn [after fs db clock_reads trace close_fault].
  rewrite Hcl1, Hcl0. f_equal.
  - apply world_eq; cbn [after fs db clock_reads trace]; auto.
    repeat (rewrite <- app_assoc; simpl). reflexivity.
  - destruct (close_fault (db w)); reflexivity.
Qed.


(** ** What a run does to the ledger and to the files *)

(** The database a run leaves behind: as the early failure left it, with
    the ledger table when nothing is listed, and as the loop leaves it
    otherwise. *)
Lemma migrate_db w :
  db (fst (migrate exec row_check clock w))
  = match early_failure w with
    | Some (d, _, _) => d
    | None =>
        match dir (fs w) with
        | Listing _ =>
            db (fst (migrate_files exec row_check clock
                       (applied_versions w) (available_files w) 0
                       (fst (diffing exec row_check w))))
        | _ => ensured (db w)
        end
    end.
Proof.
  rewrite migrate_eq, diffing_eq.
  destruct (early_failure w) as [[[d0 evs0] e0]|]; [reflexivity|]. cbn zeta.
  destruct (dir (fs w)) as [|e|entries];
    try (destruct (mkdir_fault (fs w)); reflexivity).
  cbn [fst snd].
  destruct (migrate_files _ _ _ _ _ _ _) as [w1 [e|m]]; reflexivity.
Qed.

Lemma diffing_listing_ledger w entries :
  early_failure w = None ->
  dir (fs w) = Listing entries ->
  ledger (db (fst (diffing exec row_check w))) = Some (ledger_rows w).
Proof.
  intros Hc Hd. rewrite diffing_eq, Hc, Hd. cbn [fst after db].
  apply ledger_ensured.
Qed.

(** An early failure keeps the rows of the ledger. *)
Lemma early_failure_ledger_rows w d evs e :
  early_failure w = Some (d, evs, e) ->
  match ledger d with Some rows => rows | None => [] end = ledger_rows w.
Proof.
  intros H. destruct (early_failure_some _ _ _ _ H) as ([->| ->] & _);
    [reflexivity|].
  rewrite ledger_ensured. reflexivity.
Qed.

(** X6: a run never changes or removes a row of the ledger: the rows it
    leaves are the rows it found, in place, followed by the rows of this
    run; the new rows have no checksum and belong, in order, to the first
    pending files of the sorted listing. *)
Theorem ledger_is_append_only w :
  exists rows,
    ledger_rows (fst (migrate exec row_check clock w)) = ledger_rows w ++ rows
    /\ Forall (fun row => row_checksum row = None) rows
    /\ map (fun row => (row_version row, row_name row)) rows
       `prefix_of` map (fun file => (version_of file, name_of file))
                     (List.filter (pending (applied_versions w))
                        (available_files w)).
Proof.
  unfold ledger_rows at 1. rewrite migrate_db.
  destruct (early_failure w) as [[[d0 evs0] e0]|] eqn:Hc.
  { exists []. rewrite app_nil_r.
    split; [exact (early_failure_ledger_rows _ _ _ _ Hc)|].
    split; [constructor|apply prefix_nil]. }
  destruct (dir (fs w)) as [|e|entries] eqn:Hd.
  1, 2: exists []; rewrite app_nil_r, ledger_ensured;
    (split; [reflexivity|]); split; [constructor|apply prefix_nil].
  destruct (migrate_files_ledger (applied_versions w) (available_files w) 0
              (fst (diffing exec row_check w)) (ledger_rows w)
              (diffing_listing_ledger w entries Hc Hd))
    as (rows & Hl & Hsum & Hpre & _).
  exists rows. cbn zeta in Hl. rewrite Hl. auto.
Qed.

Lemma migrate_files_nodup executed files n w rows0 :
  ledger (db w) = Some rows0 ->
  NoDup (versions_of rows0) ->
  exists rows,
    ledger (db (fst (migrate_files exec row_check clock executed files n w)))
    = Some rows
    /\ NoDup (versions_of rows).
Proof.
  revert n w rows0.
  induction files as [|file rest IH]; intros n w rows0 Hl Hnd; [eauto|].
  rewrite migrate_files_cons.
  destruct (pending executed file).
  - pose proof (runMigration_ledger file (version_of file) (name_of file)
                  (after w (db w) (clock_reads w)
                     [ConsoleLog (MsgRunning (version_of file) (name_of file))])
                  rows0 Hl) as Hr.
    cbn zeta in Hr.
    destruct (runMigration _ _ _ _ _ _ _) as [w1 [e|[]]]; cbn [fst snd] in *.
    + destruct Hr as [(Hr & _)|(_ & Hr)]; [discriminate|eauto].
    + destruct Hr as [(_ & Hnew & Hr)|((e & He) & _)]; [|discriminate].
      apply (IH (S n) w1 _ Hr).
      unfold versions_of. rewrite map_app. apply NoDup_app.
      split; [exact Hnd|]. split; [|repeat constructor; apply not_elem_of_nil].
      intros x Hx Hx'. apply list_elem_of_singleton in Hx'. subst x.
      exact (Hnew Hx).
  - apply (IH n (after w (db w) (clock_reads w)
                   [ConsoleLog (MsgSkipping (version_of file))]) rows0 Hl Hnd).
Qed.

(** X7: a run keeps the versions of the ledger distinct: whatever files are
    listed, two of them deriving the same version included, no version is
    recorded twice. *)
Theorem ledger_versions_stay_distinct w :
  NoDup (versions_of (ledger_rows w)) ->
  NoDup (versions_of (ledger_rows (fst (migrate exec row_check clock w)))).
Proof.
  intros Hnd. unfold ledger_rows at 1. rewrite migrate_db.
  destruct (early_failure w) as [[[d0 evs0] e0]|] eqn:Hc;
    [rewrite (early_failure_ledger_rows _ _ _ _ Hc); exact Hnd|].
  destruct (dir (fs w)) as [|e|entries] eqn:Hd;
    try (rewrite ledger_ensured; exact Hnd).
  destruct (migrate_files_nodup (applied_versions w) (available_files w) 0
              (fst (diffing exec row_check w)) (ledger_rows w)
              (diffing_listing_ledger w entries Hc Hd) Hnd)
    as (rows & Hl & Hnd').
  rewrite Hl. exact Hnd'.
Qed.

Lemma run_event_not_write executed files ev :
  run_event executed files ev -> forall f c, ev <> WriteFile f c.
Proof. intros H f c. inversion H; discriminate. Qed.

Lemma migrate_fs w :
  fs (fst (migrate exec row_check clock w))
  = match early_failure w, dir (fs w) with
    | Some _, _ | None, Listing _ => fs w
    | None, _ =>
        match mkdir_fault (fs w) with
        | Some _ => fs w
        | None => fs (fst (mkdir w))
        end
    end.
Proof.
  rewrite migrate_eq, diffing_eq.
  destruct (early_failure w) as [[[d0 evs0] e0]|];
    [destruct (dir (fs w)); reflexivity|].
  cbn zeta.
  destruct (dir (fs w)) as [|e|entries];
    try (destruct (mkdir_fault (fs w)); reflexivity).
  cbn [fst snd].
  pose proof (migrate_files_frame (applied_versions w) (available_files w) 0
                (after w (ensured (db w)) (clock_reads w)
                   ([Connect; Query CreateMigrationsTable;
                     ConsoleLog MsgInitialized; Query SelectVersions; Readdir]
                    ++ [ConsoleLog (MsgFound (length (available_files w)));
                        ConsoleLog
                          (MsgAlreadyExecuted (length (applied_versions w)))])))
    as (Hfs & _).
  destruct (migrate_files _ _ _ _ _ _ _) as [w1 [e|m]]; exact Hfs.
Qed.

Lemma fs_eta (f : FileSystem) :
  {| dirname := dirname f; dir := dir f; mkdir_fault := mkdir_fault f;
     read_result := read_result f; write_fault := write_fault f |} = f.
Proof. destruct f; reflexivity. Qed.

(** X8: a run reads the scripts and never writes, edits or deletes one: no
    file is written and the file system is as before, but for the
    directory when it was absent and the run got as far as creating it (no
    early failure, and [mkdir] resolved): the directory then exists and is
    empty.  In every other case an absent directory is still absent. *)
Theorem migrate_leaves_the_files_alone w :
  let w' := fst (migrate exec row_check clock w) in
  fs w'
  = {| dirname := dirname (fs w);
       dir := match dir (fs w), early_failure w, mkdir_fault (fs w) with
              | Absent, None, None => Listing []
              | d, _, _ => d
              end;
       mkdir_fault := mkdir_fault (fs w);
       read_result := read_result (fs w);
       write_fault := write_fault (fs w) |}
  /\ exists evs,
       trace w' = trace w ++ evs
       /\ Forall (fun ev => forall f c, ev <> WriteFile f c) evs.
Proof.
  cbn zeta. split.
  - rewrite migrate_fs. unfold mkdir, bind, emit. cbn [fst snd after fs].
    destruct (early_failure w) as [[[d0 evs0] e0]|];
      destruct (dir (fs w)) eqn:Hd;
      destruct (mkdir_fault (fs w)) eqn:Hm;
      cbn [fst fs set_fs]; rewrite <- ?Hd, <- ?Hm;
      try (symmetry; apply fs_eta).
    rewrite Hm. reflexivity.
  - destruct (migrate_trace w) as (evs & Ht & Hf & _).
    exists (evs ++ [Close]). split; [exact Ht|].
    apply Forall_app. split; [|repeat constructor; discriminate].
    eapply Forall_impl; [exact Hf|]. intros ev. apply run_event_not_write.
Qed.

(** X9: a run that resolves has applied every pending file: the ledger
    holds the rows it had followed by one row per pending file of the sorted
    listing, in that order, and the last line before the connection is
    closed reports their number, or that the database is up to date when
    there was none. *)
Theorem resolved_run_applies_all_pending w :
  let todo :=
    List.filter (pending (applied_versions w)) (available_files w) in
  snd (migrate exec row_check clock w) = inr tt ->
  exists rows evs,
    ledger (db (fst (migrate exec row_check clock w)))
    = Some (ledger_rows w ++ rows)
    /\ map (fun row => (row_version row, row_name row)) rows
       = map (fun file => (version_of file, name_of file)) todo
    /\ trace (fst (migrate exec row_check clock w))
       = trace w ++ evs
         ++ [ConsoleLog (if (length todo =? 0)%nat then MsgUpToDate
                         else MsgSuccess (length todo));
             Close].
Proof.
  intros todo. subst todo. rewrite migrate_eq, diffing_eq.
  destruct (early_failure w) as [[[d0 evs0] e0]|] eqn:Hc.
  { simpl. destruct (close_fault d0); discriminate. }
  cbn zeta.
  destruct (dir (fs w)) as [|e|entries] eqn:Hdir.
  1, 2: assert (Hav : available_files w = [])
      by (unfold available_files; rewrite Hdir; reflexivity);
    rewrite Hav;
    destruct (mkdir_fault (fs w)) as [e'|] eqn:Hm;
    [cbn [fst snd after db]; destruct (close_fault _); discriminate|];
    intros _; exists [], [Connect; Query CreateMigrationsTable;
                          ConsoleLog MsgInitialized; Query SelectVersions;
                          Readdir; ConsoleLog MsgNoDirectory; Mkdir;
                          ConsoleLog (MsgFound 0);
                          ConsoleLog
                            (MsgAlreadyExecuted (length (applied_versions w)))];
    cbn [fst snd migrate_files]; unfold ret;
    cbn [fst snd Nat.eqb after set_fs db trace List.filter map length];
    rewrite ledger_ensured, app_nil_r; fold (ledger_rows w);
    (split; [reflexivity|]); (split; [reflexivity|]);
    repeat (rewrite <- app_assoc; cbn [app]); reflexivity.
  cbn [fst snd].
  match goal with
  | |- context [migrate_files _ _ _ ?ex ?fl 0%nat ?w0] =>
      destruct (migrate_files_trace ex fl fl 0%nat w0)
        as (evs & Ht & _); [intros x Hx; exact Hx|];
      pose proof (migrate_files_ledger ex fl 0%nat w0 (ledger_rows w)) as Hlg;
      cbn zeta in Ht, Hlg;
      destruct (migrate_files exec row_check clock ex fl 0%nat w0)
        as [w1 [e|m]]
  end; cbn [fst snd after db trace] in *.
  { destruct (close_fault (db w1)); discriminate. }
  intros _.
  destruct Hlg as (rows & Hl & _ & _ & Hs); [apply ledger_ensured|].
  destruct (Hs m eq_refl) as [Hrows Hm].
  assert (Hlen : m = length (List.filter (pending (applied_versions w))
                               (available_files w))).
  { rewrite Hm. simpl.
    rewrite <- (length_map (fun row => (row_version row, row_name row)) rows).
    rewrite Hrows. apply length_map. }
  exists rows,
    ([Connect; Query CreateMigrationsTable; ConsoleLog MsgInitialized;
      Query SelectVersions; Readdir;
      ConsoleLog (MsgFound (length (available_files w)));
      ConsoleLog (MsgAlreadyExecuted (length (applied_versions w)))] ++ evs).
  split; [exact Hl|]. split; [exact Hrows|].
  rewrite Ht, <- Hlen. cbn [after trace].
  repeat (rewrite <- app_assoc; cbn [app]). reflexivity.
Qed.


Lemma statements_of_sent content :
  Forall (fun statement => sent statement = true) (statements_of content).
Proof.
  unfold statements_of. apply Forall_forall. intros st Hin.
  apply list_elem_of_In, filter_In in Hin as [Hin Hlen].
  apply in_map_iff in Hin as (piece & <- & _).
  unfold sent. rewrite trim_idempotent.
  destruct (JS.trim piece); [discriminate|reflexivity].
Qed.

(** The statements sent are the accepted ones, in order, followed by the
    first one that is rejected, if any. *)
Lemma exec_all_accepts statements s :
  Forall (fun statement => sent statement = true) statements ->
  match snd (exec_all exec statements s) with
  | None =>
      accepts exec s statements (fst (exec_all exec statements s))
      /\ attempted exec statements s = statements
  | Some e =>
      exists pre statement post,
        statements = pre ++ statement :: post
        /\ accepts exec s pre (fst (exec_all exec statements s))
        /\ exec statement (fst (exec_all exec statements s)) = inl e
        /\ attempted exec statements s = pre ++ [statement]
  end.
Proof.
  intros H. revert s.
  induction H as [|st rest Hst _ IH]; intros s.
  { simpl. split; [constructor|reflexivity]. }
  cbn [attempted exec_all]. rewrite Hst.
  destruct (exec st s) as [e|s1] eqn:He.
  - cbn [fst snd]. exists [], st, rest.
    repeat split; [constructor|exact He].
  - specialize (IH s1).
    destruct (snd (exec_all exec rest s1)) as [e|].
    + destruct IH as (pre & st' & post & -> & Hacc & Hrej & Hatt).
      exists (st :: pre), st', post. rewrite Hatt.
      repeat split; [econstructor; eauto|exact Hrej].
    + destruct IH as (Hacc & Hatt). rewrite Hatt.
      split; [econstructor; eauto|reflexivity].
Qed.

(** X10: after reading the clock and loading the file, [runMigration] sends
    the statements of the script in the order they appear in the file, each
    once and none skipped, each to the database as the one before left it.
    It stops at the first statement the database rejects: that statement is
    the last one sent, the failure is written to the error console and the
    call rejects with the error of that statement.  When every statement is
    accepted they have all been sent before the clock is read again and the
    [INSERT] is sent. *)
Theorem statements_are_sent_in_order file v n w content :
  let r := runMigration exec row_check clock file v n w in
  let statements := statements_of content in
  read_result (fs w) file = inr content ->
  exists evs,
    trace (fst r) = trace w ++ ReadClock :: ReadFile file :: evs
    /\ ((exists pre statement post e,
           statements = pre ++ statement :: post
           /\ accepts exec (schema (db w)) pre (schema (db (fst r)))
           /\ exec statement (schema (db (fst r))) = inl e
           /\ evs = map (fun s => Query (Statement s)) (pre ++ [statement])
                    ++ [ConsoleError (MsgMigrationFailed v n e)]
           /\ snd r = inl e)
        \/ (exists t last,
              accepts exec (schema (db w)) statements (schema (db (fst r)))
              /\ evs = map (fun s => Query (Statement s)) statements
                       ++ [ReadClock; Query (InsertMigration v n t); last])).
Proof.
  intros r statements Hread. subst r statements.
  rewrite runMigration_eq. cbn zeta. rewrite Hread.
  pose proof (exec_all_accepts (statements_of content) (schema (db w))
                (statements_of_sent content)) as H.
  destruct (snd (exec_all exec (statements_of content) (schema (db w))))
    as [e|] eqn:He.
  - destruct H as (pre & st & post & Hsplit & Hacc & Hrej & Hatt).
    eexists. split; [reflexivity|]. left. exists pre, st, post, e.
    rewrite Hatt. cbn [fst snd after db schema set_schema]. auto.
  - destruct H as (Hacc & Hatt). rewrite Hatt.
    eexists. split; [reflexivity|]. right. do 2 eexists.
    split; [|reflexivity].
    cbn [fst after db run_query]. rewrite ledger_set_schema.
    destruct (ledger (db w)) as [rows|]; [|exact Hacc].
    destruct (bool_decide _); [exact Hacc|].
    destruct (row_check _); exact Hacc.
Qed.

(** ** Discovery *)

(** X11: the directory is created once: when it is absent the first
    [getMigrationFiles] creates it and returns no file, and the next one
    lists it, finds it empty and creates nothing. *)
Theorem missing_directory_is_created_once w :
  let w1 := fst (getMigrationFiles w) in
  dir (fs w) = Absent ->
  mkdir_fault (fs w) = None ->
  snd (getMigrationFiles w) = inr []
  /\ dir (fs w1) = Listing []
  /\ getMigrationFiles w1
     = (after w1 (db w1) (clock_reads w1) [Readdir], inr []).
Proof.
  intros w1 Hd Hm. subst w1. rewrite (getMigrationFiles_eq w), Hd, Hm.
  cbn [fst snd]. split; [reflexivity|].
  assert (Hd1 : dir (fs (fst (mkdir w))) = Listing []).
  { unfold mkdir, bind, emit. cbn [fst snd after fs]. rewrite Hm, Hd.
    reflexivity. }
  split; [exact Hd1|].
  rewrite getMigrationFiles_eq. cbn [fs set_fs]. rewrite Hd1. reflexivity.
Qed.

(** X12: the version tells the file: two file names that contain [.sql] as
    their extension only pass the filter of [getMigrationFiles], derive the
    file name without its extension as version, and derive different
    versions unless they are the same name. *)
Theorem plain_file_names_have_distinct_versions base base' :
  JS.str_includes (js ".sql") base = false ->
  JS.str_includes (js ".sql") base' = false ->
  JS.endsWith (js ".sql") (base ++ js ".sql") = true
  /\ version_of (base ++ js ".sql") = base
  /\ (version_of (base ++ js ".sql") = version_of (base' ++ js ".sql") ->
      base ++ js ".sql" = base' ++ js ".sql").
Proof.
  intros H H'. split; [|split].
  - unfold JS.endsWith. rewrite List.length_app.
    apply andb_true_iff. split; [apply Nat.leb_le; lia|].
    apply bool_decide_eq_true.
    replace (length base + length (js ".sql") - length (js ".sql"))%nat
      with (length base) by lia.
    apply drop_app_length.
  - apply version_of_extension, H.
  - rewrite (version_of_extension base H), (version_of_extension base' H').
    intros ->. reflexivity.
Qed.



(** ** Authoring, continued *)


Lemma endsWith_app suf s : JS.endsWith suf (s ++ suf) = true.
Proof.
  unfold JS.endsWith. rewrite List.length_app.
  apply andb_true_iff. split; [apply Nat.leb_le; lia|].
  apply bool_decide_eq_true.
  replace (length s + length suf - length suf)%nat with (length s) by lia.
  apply drop_app_length.
Qed.

Lemma elem_of_available_files w entries f :
  dir (fs w) = Listing entries ->
  f ∈ available_files w <-> f ∈ entries /\ JS.endsWith (js ".sql") f = true.
Proof.
  intros Hd. unfold available_files. rewrite Hd, sort_perm.
  rewrite !list_elem_of_In. apply filter_In.
Qed.

(** The files available once an entry of a listed directory was written. *)
Lemma available_files_written w w' entries file content :
  dir (fs w) = Listing entries ->
  fs w' = written file content (fs w) ->
  forall f,
    f ∈ available_files w'
    <-> (f ∈ entries \/ f = file) /\ JS.endsWith (js ".sql") f = true.
Proof.
  intros Hd Hfs f.
  assert (Hdir : (file ∈ entries /\ dir (fs w') = Listing entries)
                 \/ dir (fs w') = Listing (entries ++ [file])).
  { rewrite Hfs. cbn [written dir]. rewrite Hd.
    destruct (decide (file ∈ entries)) as [Hfile|Hfile];
      [rewrite (bool_decide_eq_true_2 _ Hfile)
      |rewrite (bool_decide_eq_false_2 _ Hfile)]; auto. }
  destruct Hdir as [[Hfile Hdir]|Hdir].
  - rewrite (elem_of_available_files _ entries) by exact Hdir.
    split; [intros [? ?]; auto|].
    intros [[?| ->] ?]; auto.
  - rewrite (elem_of_available_files _ (entries ++ [file])) by exact Hdir.
    rewrite elem_of_app, list_elem_of_singleton. reflexivity.
Qed.

(** X15: what is authored is discovered.  After [createMigration] resolved
    in a directory that is listed, every file [getMigrationFiles] returned
    before is still returned.  The new file is written where its name joins
    to, under its name as UTF-8 encodes it: when that is an entry of the
    directory, the entry holds the template and is returned by
    [getMigrationFiles] if it carries the suffix; when it is not, the files
    of the directory are as before.  For a well-formed name without path
    separator the entry is the file name [createMigration] returned, which
    is therefore discovered. *)
Theorem authored_file_is_discovered w name entries fileName :
  let w' := fst (createMigration clock name w) in
  let template := template_of name (toISOString (clock (S (clock_reads w)))) in
  let filePath := Path.join (migrationsPath (fs w)) fileName in
  dir (fs w) = Listing entries ->
  snd (createMigration clock name w) = inr fileName ->
  (forall f, f ∈ available_files w -> f ∈ available_files w')
  /\ (forall file,
        entry_of (migrationsPath (fs w)) filePath = Some file ->
        read_result (fs w') (JS.toWellFormed file)
        = inr (JS.toWellFormed template)
        /\ (JS.endsWith (js ".sql") (JS.toWellFormed file) = true ->
            JS.toWellFormed file ∈ available_files w'))
  /\ (entry_of (migrationsPath (fs w)) filePath = None -> fs w' = fs w)
  /\ (JS.isWellFormed name = true ->
      Forall (fun c => c <> 47) name ->
      fileName ∈ available_files w'
      /\ read_result (fs w') fileName = inr template).
Proof.
  cbn zeta. intros Hd.
  pose proof (createMigration_eq name w) as E. cbn zeta in E.
  set (stamp := JS.slice0 14
                  (JS.remove_non_digits (toISOString (clock (clock_reads w)))))
    in *.
  set (template := template_of name (toISOString (clock (S (clock_reads w)))))
    in *.
  destruct (write_error (fs w) _) as [e|] eqn:Hw;
    rewrite E; cbn [fst snd fs set_fs]; [discriminate|].
  intros H.
  assert (Hname : stamp ++ js "_" ++ JS.replace_space_runs (js "_") name
                  ++ js ".sql" = fileName)
    by exact (f_equal (fun r => match r with
                                | inr x => x
                                | inl _ => fileName
                                end) H).
  subst fileName. clear H.
  set (filePath := Path.join (migrationsPath (fs w))
                     (stamp ++ js "_" ++ JS.replace_space_runs (js "_") name
                      ++ js ".sql")) in *.
  assert (Hentry : forall file content,
            (forall f,
               f ∈ available_files
                     (set_fs (written file content (fs w))
                        (after w (db w) (S (S (clock_reads w)))
                           [ReadClock; ReadClock; WriteFile filePath template;
                            ConsoleLog
                              (MsgCreated
                                 (stamp ++ js "_"
                                  ++ JS.replace_space_runs (js "_") name
                                  ++ js ".sql"))]))
               <-> (f ∈ entries \/ f = file)
                   /\ JS.endsWith (js ".sql") f = true)).
  { intros file content.
    apply (available_files_written w _ entries file content Hd). reflexivity. }
  assert (Hread : forall file content,
            read_result (written file content (fs w)) file = inr content).
  { intros file content. cbn [written read_result].
    rewrite bool_decide_eq_true_2 by reflexivity. reflexivity. }
  split; [|split; [|split]].
  - intros f Hf.
    apply (elem_of_available_files w entries f Hd) in Hf as [? ?].
    destruct (entry_of (migrationsPath (fs w)) filePath) as [file|] eqn:He.
    + apply Hentry. auto.
    + apply (elem_of_available_files _ entries f); [exact Hd|auto].
  - intros file He. rewrite He. split; [apply Hread|].
    intros Hends. apply Hentry. auto.
  - intros ->. reflexivity.
  - intros Hwf Hsep.
    assert (He : entry_of (migrationsPath (fs w)) filePath
                 = Some (stamp ++ js "_" ++ JS.replace_space_runs (js "_") name
                         ++ js ".sql")).
    { unfold filePath, stamp.
      rewrite (join_file_name _ _ _ (slice_digits _) Hsep).
      apply entry_of_app. }
    assert (Hf : JS.toWellFormed
                   (stamp ++ js "_" ++ JS.replace_space_runs (js "_") name
                    ++ js ".sql")
                 = stamp ++ js "_" ++ JS.replace_space_runs (js "_") name
                   ++ js ".sql")
      by (apply toWellFormed_id, file_name_well_formed;
          [apply slice_digits|exact Hwf]).
    assert (Ht : JS.toWellFormed template = template)
      by (apply toWellFormed_id, template_well_formed, Hwf).
    rewrite He, !Hf, !Ht.
    split; [|apply Hread].
    apply Hentry. split; [auto|].
    rewrite !app_assoc. apply endsWith_app.
Qed.










(** ** Command line, continued *)

(** X17: the other branches of the dispatch.  A command that is neither
    [migrate] nor [create], a missing command included, prints the three
    usage lines and exits with code 1 without a call to the engine.  The
    [create] command with a name never ends the process itself: it leaves
    the database alone, and a rejected write is only written to the error
    console. *)
Theorem main_other_commands w command name :
  (command <> Some (js "migrate") ->
   command <> Some (js "create") ->
   main exec row_check clock command name w
   = (after w (db w) (clock_reads w)
        [ConsoleLog (MsgUsage 0); ConsoleLog (MsgUsage 1);
         ConsoleLog (MsgUsage 2)],
      Exit 1))
  /\ (forall n,
        n <> [] ->
        let r := main exec row_check clock (Some (js "create")) (Some n) w in
        snd r = Returned
        /\ db (fst r) = db w
        /\ trace (fst r)
           = trace (fst (createMigration clock n w))
             ++ match snd (createMigration clock n w) with
                | inl e => [ConsoleError (MsgRejection e)]
                | inr _ => []
                end).
Proof.
  split.
  - intros Hm Hc. unfold main.
    rewrite (bool_decide_eq_false_2 _ Hm), (bool_decide_eq_false_2 _ Hc).
    unfold bind, console_log, emit. cbn [fst snd]. f_equal.
    apply world_eq; cbn [after fs db clock_reads trace]; auto.
    rewrite <- !app_assoc. reflexivity.
  - intros n Hn. cbn zeta. unfold main.
    rewrite (bool_decide_eq_false_2 (Some (js "create") = Some (js "migrate")))
      by discriminate.
    rewrite (bool_decide_eq_true_2 (Some (js "create") = Some (js "create")))
      by reflexivity.
    destruct n as [|c n]; [contradiction|]. cbn [fst snd].
    split; [reflexivity|]. unfold catch_console_error.
    pose proof (createMigration_eq (c :: n) w) as E. cbn zeta in E.
    rewrite E.
    destruct (write_error (fs w) _) as [e|];
      cbn [fst snd after set_fs db trace console_error emit];
      rewrite ?app_nil_r; auto.
Qed.

(** ** The application *)

Lemma connect_eq w :
  connect w
  = (after w (db w) (clock_reads w) [Connect],
     match connect_fault (db w) with Some e => inl e | None => inr tt end).
Proof.
  unfold connect, bind. rewrite emit_eq. simpl.
  destruct (connect_fault (db w)); reflexivity.
Qed.

Lemma engine_eq {A} (c : M (World Schema) A) (a : App Schema) evs :
  trace (fst (c (world a))) = trace (world a) ++ evs ->
  engine c a
  = ({| world := fst (c (world a)); port := port a;
        app_trace := app_trace a ++ map Engine evs |},
     snd (c (world a))).
Proof.
  intros H. unfold engine.
  destruct (c (world a)) as [w r]. cbn [fst snd] in *.
  rewrite H, drop_app_length. reflexivity.
Qed.

Lemma engine_not_listen (evs : list event) :
  Forall (fun ev => ev <> Listen) (map Engine evs).
Proof.
  apply Forall_forall. intros ev Hin.
  apply list_elem_of_In, in_map_iff in Hin as (x & <- & _). discriminate.
Qed.

(** What [app.listen] does, case by case. *)
Lemma app_listen_eq (a : App Schema) :
  app_listen a
  = match port a with
    | Bound =>
        ({| world := world a; port := port a;
            app_trace := app_trace a ++ Listen :: callback_lines |},
         inr Serving)
    | Thrown e =>
        ({| world := world a; port := port a;
            app_trace := app_trace a ++ [Listen] |}, inl e)
    | Emitted e calls_back =>
        ({| world := world a; port := port a;
            app_trace :=
              app_trace a
              ++ Listen :: (if calls_back then callback_lines else []) |},
         inr (NotListening e))
    end.
Proof.
  unfold app_listen, bind at 1, app_emit at 1. cbn [port].
  destruct (port a) as [|e|e [|]]; try reflexivity;
    unfold listen_callback, bind, app_emit, ret, callback_lines;
    cbn [fst snd world port app_trace];
    repeat (rewrite <- app_assoc; cbn [app]); reflexivity.
Qed.

(** What [startApp] does, case by case. *)
Lemma startApp_eq (a : App Schema) :
  let w1 := after (world a) (db (world a)) (clock_reads (world a)) [Connect] in
  exists evs,
    trace (fst (migrate exec row_check clock w1)) = trace w1 ++ evs ++ [Close]
    /\ Forall (run_event (applied_versions w1) (available_files w1)) evs
    /\ startApp exec row_check clock a
       = match connect_fault (db (world a)) with
         | Some e =>
             ({| world := w1; port := port a;
                 app_trace :=
                   app_trace a
                   ++ [Engine Connect; AppError (AppStartFailed e)] |},
              Exited 1)
         | None =>
             let pre :=
               [Engine Connect; AppLog AppRunningMigrations]
               ++ map Engine evs ++ [Engine Close] in
             let finish how lines :=
               ({| world := fst (migrate exec row_check clock w1);
                   port := port a;
                   app_trace := app_trace a ++ pre ++ lines |}, how) in
             match snd (migrate exec row_check clock w1) with
             | inl e => finish (Exited 1) [AppError (AppStartFailed e)]
             | inr _ =>
                 match port a with
                 | Bound => finish Serving (Listen :: callback_lines)
                 | Thrown e =>
                     finish (Exited 1) [Listen; AppError (AppStartFailed e)]
                 | Emitted e calls_back =>
                     finish (NotListening e)
                       (Listen :: (if calls_back then callback_lines else []))
                 end
             end
         end.
Proof.
  intros w1. destruct (migrate_trace w1) as (evs & Ht & Hf & _).
  exists evs. split; [exact Ht|]. split; [exact Hf|].
  unfold startApp, bind at 1.
  rewrite (engine_eq connect a [Connect])
    by (rewrite connect_eq; reflexivity).
  rewrite connect_eq. cbn [fst snd]. fold w1.
  destruct (connect_fault (db (world a))) as [e|].
  { unfold app_emit. cbn [fst world port app_trace].
    rewrite <- app_assoc. reflexivity. }
  unfold bind at 1, app_emit at 1. unfold bind at 1.
  rewrite (engine_eq (migrate exec row_check clock) _ (evs ++ [Close]))
    by exact Ht.
  cbn [world port app_trace fst snd]. cbn zeta.
  destruct (snd (migrate exec row_check clock w1)) as [e|[]].
  - unfold app_emit. cbn [fst world port app_trace]. f_equal. f_equal.
    rewrite map_app. repeat (rewrite <- app_assoc; cbn [app map]).
    reflexivity.
  - rewrite app_listen_eq. cbn [world port app_trace].
    destruct (port a) as [|e|e cb]; cbn [fst snd app_emit world port app_trace];
      unfold app_emit; cbn [fst snd world port app_trace];
      f_equal; f_equal;
      rewrite map_app; repeat (rewrite <- app_assoc; cbn [app map]);
      reflexivity.
Qed.

(** X18: [startApp] starts the server only after the migrations.
    [app.listen] is called exactly when the connection opens and the run of
    [migrate] resolves, and the last call before it is the [close] of
    [migrate]: the connection [startApp] opened has been closed again.  The
    server then listens exactly when the port can be bound.  [startApp]
    ends the process with [process.exit(1)] exactly when the connection is
    refused, the run rejects or [app.listen] throws.  When the server emits
    [error] instead of listening, [startApp] neither serves nor calls
    [process.exit]. *)
Theorem startApp_serves_after_migrations (a : App Schema) :
  let w1 := fst (connect (world a)) in
  let r := startApp exec row_check clock a in
  let migrated :=
    connect_fault (db (world a)) = None
    /\ snd (migrate exec row_check clock w1) = inr tt in
  (snd r = Serving <-> migrated /\ port a = Bound)
  /\ (snd r = Exited 1 <-> ~ migrated \/ exists e, port a = Thrown e)
  /\ (forall e,
        snd r = NotListening e
        <-> migrated /\ exists calls_back, port a = Emitted e calls_back)
  /\ exists evs,
       app_trace (fst r) = app_trace a ++ evs
       /\ (Listen ∈ evs <-> migrated)
       /\ (migrated ->
           exists pre lines,
             evs = pre ++ [Engine Close; Listen] ++ lines
             /\ Forall (fun ev => ev <> Listen) pre
             /\ Forall (fun ev => ev <> Listen) lines
             /\ (snd r = Serving -> lines = callback_lines)).
Proof.
  cbn zeta. rewrite connect_eq. cbn [fst].
  destruct (startApp_eq a) as (evs & _ & _ & ->). cbn zeta.
  assert (Hpre : Forall (fun ev : app_event => ev <> Listen)
                   ([Engine Connect; AppLog AppRunningMigrations]
                    ++ map Engine evs)).
  { repeat (apply Forall_cons; split; [discriminate|]).
    apply engine_not_listen. }
  assert (Hpre' : Forall (fun ev : app_event => ev <> Listen)
                    ([Engine Connect; AppLog AppRunningMigrations]
                     ++ map Engine evs ++ [Engine Close])).
  { repeat (apply Forall_cons; split; [discriminate|]).
    apply Forall_app. split; [apply engine_not_listen|].
    repeat constructor; discriminate. }
  assert (Hcb : Forall (fun ev : app_event => ev <> Listen) callback_lines)
    by (repeat constructor; discriminate).
  destruct (connect_fault (db (world a))) as [e|].
  { cbn [fst snd app_trace].
    split; [split; [discriminate|intros [[? _] _]; discriminate]|].
    split; [split; [intros _; left; intros [? _]; discriminate|reflexivity]|].
    split; [intros e'; split; [discriminate|intros [[? _] _]; discriminate]|].
    eexists. split; [reflexivity|]. split.
    - split; [|intros [? _]; discriminate].
      intros Hin. exfalso.
      apply elem_of_cons in Hin as [Hin|Hin]; [discriminate|].
      apply list_elem_of_singleton in Hin. discriminate.
    - intros [? _]. discriminate. }
  destruct (snd (migrate exec row_check clock _)) as [e|[]];
    cbn [fst snd app_trace].
  { split; [split; [discriminate|intros [[_ ?] _]; discriminate]|].
    split; [split; [intros _; left; intros [_ ?]; discriminate|reflexivity]|].
    split; [intros e'; split; [discriminate|intros [[_ ?] _]; discriminate]|].
    eexists. split; [reflexivity|]. split.
    - split; [|intros [_ ?]; discriminate].
      intros Hin. exfalso.
      apply elem_of_app in Hin as [Hin|Hin].
      + exact (proj1 (Forall_forall _ _) Hpre' _ Hin eq_refl).
      + apply list_elem_of_singleton in Hin. discriminate.
    - intros [_ ?]. discriminate. }
  assert (Hm : (None : option error) = None /\ (inr tt : error + unit) = inr tt)
    by auto.
  assert (Hin : forall lines : list app_event,
            Listen ∈ ([Engine Connect; AppLog AppRunningMigrations]
                      ++ map Engine evs ++ [Engine Close])
                     ++ Listen :: lines).
  { intros lines. apply elem_of_app. right. left. }
  assert (Hshape : forall lines : list app_event,
            ([Engine Connect; AppLog AppRunningMigrations]
             ++ map Engine evs ++ [Engine Close]) ++ Listen :: lines
            = ([Engine Connect; AppLog AppRunningMigrations] ++ map Engine evs)
              ++ [Engine Close; Listen] ++ lines).
  { intros lines. repeat (rewrite <- app_assoc; cbn [app]). reflexivity. }
  destruct (port a) as [|e|e cb]; cbn [fst snd app_trace].
  - split; [split; auto|].
    split; [split; [discriminate|intros [H|[e H]]; [contradiction|discriminate]]|].
    split; [intros e'; split; [discriminate|intros [_ [cb H]]; discriminate]|].
    eexists. split; [reflexivity|]. split; [split; auto|].
    intros _. exists ([Engine Connect; AppLog AppRunningMigrations]
                      ++ map Engine evs), callback_lines.
    split; [apply Hshape|]. auto.
  - split; [split; [discriminate|intros [_ H]; discriminate]|].
    split; [split; [eauto|reflexivity]|].
    split; [intros e'; split; [discriminate|intros [_ [cb H]]; discriminate]|].
    eexists. split; [reflexivity|]. split; [split; auto|].
    intros _. exists ([Engine Connect; AppLog AppRunningMigrations]
                      ++ map Engine evs), [AppError (AppStartFailed e)].
    split; [apply Hshape|]. split; [exact Hpre|].
    split; [repeat constructor; discriminate|discriminate].
  - split; [split; [discriminate|intros [_ H]; discriminate]|].
    split; [split; [discriminate|intros [H|[e' H]]; [contradiction|discriminate]]|].
    split.
    { intros e'. split.
      - intros H. injection H as <-. eauto.
      - intros [_ [cb' H]]. injection H as <- _. reflexivity. }
    eexists. split; [reflexivity|]. split; [split; auto|].
    intros _. exists ([Engine Connect; AppLog AppRunningMigrations]
                      ++ map Engine evs),
                (if cb then callback_lines else []).
    split; [apply Hshape|]. split; [exact Hpre|].
    split; [destruct cb; [exact Hcb|constructor]|discriminate].
Qed.

(** X19: the route [POST /db/migrate] answers 200 exactly when the run of
    [migrate] resolves and 500 with the error of the run otherwise; the
    rejection never escapes the handler, and the last call of every request
    is the [close] of the connection. *)
Theorem post_db_migrate_replies (a : App Schema) :
  let run := migrate exec row_check clock (world a) in
  let r := post_db_migrate exec row_check clock a in
  world (fst r) = fst run
  /\ snd r
     = match snd run with
       | inr _ =>
           {| status := 200;
              payload := MessageBody "Migrations completed successfully" |}
       | inl e => {| status := 500; payload := ErrorBody e |}
       end
  /\ (status (snd r) = 200 <-> snd run = inr tt)
  /\ exists evs,
       app_trace (fst r) = app_trace a ++ map Engine evs ++ [Engine Close].
Proof.
  cbn zeta. destruct (migrate_trace (world a)) as (evs & Ht & _).
  unfold post_db_migrate.
  rewrite (engine_eq (migrate exec row_check clock) a (evs ++ [Close]))
    by exact Ht.
  destruct (snd (migrate exec row_check clock (world a))) as [e|[]];
    cbn [fst snd world app_trace status].
  - split; [reflexivity|]. split; [reflexivity|].
    split; [split; discriminate|].
    exists evs. rewrite map_app. reflexivity.
  - split; [reflexivity|]. split; [reflexivity|]. split; [split; auto|].
    exists evs. rewrite map_app. reflexivity.
Qed.

(** X20: the route is safe to call on a server that started: right after a
    [startApp] that ended with the server listening, [POST /db/migrate]
    answers 200, leaves the database as it is, and loads no file and sends
    no statement and no [INSERT]. *)
Theorem migrate_route_after_startup (a : App Schema) :
  let a1 := fst (startApp exec row_check clock a) in
  let r := post_db_migrate exec row_check clock a1 in
  snd (startApp exec row_check clock a) = Serving ->
  status (snd r) = 200
  /\ db (world (fst r)) = db (world a1)
  /\ exists evs,
       app_trace (fst r) = app_trace a1 ++ map Engine evs
       /\ Forall applies_nothing evs.
Proof.
  cbn zeta. destruct (startApp_eq a) as (evs0 & _ & _ & E). cbn zeta in E.
  rewrite E. clear E.
  destruct (connect_fault (db (world a))) as [e|]; [discriminate|].
  set (w1 := after (world a) (db (world a)) (clock_reads (world a)) [Connect]).
  destruct (migrate exec row_check clock w1) as [w2 res] eqn:Hrun.
  cbn [fst snd]. destruct res as [e|[]]; [discriminate|]. cbn zeta.
  destruct (port a) as [|e|e calls_back]; cbn [fst snd]; try discriminate.
  intros _. cbn [fst world].
  destruct (migrate_resolves w1 w2 Hrun) as (Hc & Hcl & Hdir & rows & Hl & Hall).
  destruct (migrate_up_to_date w2 rows Hl Hall) as [Hdb Hok].
  specialize (Hok Hc Hcl Hdir).
  destruct (migrate_trace w2) as (evs & Ht & Hf & _).
  unfold post_db_migrate.
  rewrite (engine_eq (migrate exec row_check clock) _ (evs ++ [Close]))
    by exact Ht.
  cbn [world app_trace fst snd]. rewrite Hok. cbn [fst snd status world].
  split; [reflexivity|]. split; [exact Hdb|].
  exists (evs ++ [Close]). split; [reflexivity|].
  apply Forall_app. split; [|repeat constructor].
  eapply Forall_impl; [exact Hf|]. intros ev.
  apply run_event_applies_nothing. unfold applied_versions. rewrite Hl.
  exact Hall.
Qed.


End Properties.

(** * The properties on the example worlds *)

(** C1, counterexample: the runs of [world_x_fails] and [world_y_fails] both
    fail in their only script, [x] for the one and [y] for the other, and
    both reject with the same value, the database error: no version can be
    read off it. *)
Lemma surfaced_error_carries_no_version :
  snd (demo_migrate world_x_fails) = inl (DbError "42601")
  /\ snd (demo_migrate world_y_fails) = inl (DbError "42601")
  /\ ~ exists version_carried : error -> jsstring,
         version_carried (DbError "42601") = version_of (js "x.sql")
         /\ version_carried (DbError "42601") = version_of (js "y.sql").
Proof.
  split; [vm_compute; reflexivity|]. split; [vm_compute; reflexivity|].
  intros (f & Hx & Hy). rewrite Hx in Hy. vm_compute in Hy. discriminate.
Qed.

(** C1, witness: three pending scripts of which the second fails. *)
Lemma failing_script_aborts_the_run_witness :
  snd (demo_migrate world_b_fails) = inl (DbError "42601")
  /\ exists rows,
       map (fun row => (row_version row, row_name row)) rows
       = [(js "20240101000000_a", js "20240101000000 a")]
       /\ ledger (db (fst (demo_migrate world_b_fails))) = Some rows.
Proof.
  destruct (failing_script_aborts_the_run Journal journal_exec accept_row
              demo_clock world_b_fails []
              [js "20240101000000_a.sql"] (js "20240102000000_b.sql")
              [js "20240103000000_c.sql"]
              1%nat (js "CREATE TABLE b; FAIL b; CREATE TABLE b2")
              (DbError "42601"))
    as (rows & Hrows & _ & Hmig & Hl).
  - vm_compute; reflexivity.
  - vm_compute; reflexivity.
  - vm_compute; reflexivity.
  - vm_compute; reflexivity.
  - vm_compute; reflexivity.
  - split; [rewrite Hmig; reflexivity|].
    exists rows. split; [exact Hrows|exact Hl].
Defined.

(** C2, witness: the first script of [world_fresh], once the ledger table
    exists. *)
Lemma runMigration_records_null_checksum_witness :
  exists rows,
    ledger (db (fst (demo_diffing world_fresh))) = Some rows
    /\ ledger (db (fst (runMigration journal_exec accept_row demo_clock
                          (js "20240101000000_a.sql") (js "20240101000000_a")
                          (js "20240101000000 a")
                          (fst (demo_diffing world_fresh)))))
       = Some (rows ++
               [{| row_version := js "20240101000000_a";
                   row_name := js "20240101000000 a";
                   row_checksum := None;
                   row_execution_time := 7 |}]).
Proof.
  apply (runMigration_records_null_checksum Journal journal_exec accept_row
           demo_clock (js "20240101000000_a.sql") (js "20240101000000_a")
           (js "20240101000000 a") (fst (demo_diffing world_fresh))).
  vm_compute; reflexivity.
Defined.

(** C3, counterexample: the scripts [a.sql] and [a-b.sql] are applied in the
    order [a-b], [a], which is the order of the file names, while the
    version [a] comes before the version [a-b]. *)
Lemma order_is_not_by_version :
  snd (demo_migrate world_prefix) = inr tt
  /\ loaded (trace (fst (demo_migrate world_prefix)))
     = [js "a-b.sql"; js "a.sql"]
  /\ map version_of [js "a-b.sql"; js "a.sql"] = [js "a-b"; js "a"]
  /\ JS.str_le (js "a") (js "a-b")
  /\ ~ JS.str_le (js "a-b") (js "a").
Proof.
  repeat split; try (vm_compute; reflexivity).
  intros H. vm_compute in H. discriminate.
Qed.

(** C3, witness: the three scripts of the spec, listed as c, a, b, are
    applied in the order a, b, c. *)
Lemma migrate_applies_in_file_name_order_witness :
  exists evs,
    trace (fst (demo_migrate world_fresh)) = trace world_fresh ++ evs
    /\ loaded evs
       = [js "20240101000000_a.sql"; js "20240102000000_b.sql";
          js "20240103000000_c.sql"].
Proof.
  destruct (migrate_applies_in_file_name_order Journal journal_exec accept_row
              demo_clock world_fresh three_files eq_refl)
    as (_ & _ & _ & evs & Ht & _ & Hs).
  exists evs. split; [exact Ht|].
  rewrite Hs; [vm_compute; reflexivity|vm_compute; reflexivity].
Defined.

(** C4, witness: two runs from [world_fresh]. *)
Lemma migrate_twice_is_idempotent_witness :
  snd (demo_migrate (fst (demo_migrate world_fresh))) = inr tt
  /\ db (fst (demo_migrate (fst (demo_migrate world_fresh))))
     = db (fst (demo_migrate world_fresh)).
Proof.
  destruct (migrate_twice_is_idempotent Journal journal_exec accept_row
              demo_clock world_fresh) as (Hall & Hok).
  - vm_compute; reflexivity.
  - split; [exact Hok|].
    apply (Hall (fst (demo_migrate world_fresh)) eq_refl eq_refl).
Defined.

(** C4, counterexample: the first run of [world_retry] executes the
    [INSERT] of its script and fails in the second statement, so the script
    is not recorded; the second run, against the same files, executes the
    script again, succeeds and records it: it applies a script and the
    ledger is not what the first run left. *)
Lemma second_run_completes_a_failed_first :
  let run := migrate count_exec accept_row demo_clock in
  snd (run world_retry) = inl (DbError "22012")
  /\ ledger (db (fst (run world_retry))) = Some []
  /\ fs (fst (run world_retry)) = fs world_retry
  /\ snd (run (fst (run world_retry))) = inr tt
  /\ option_map versions_of (ledger (db (fst (run (fst (run world_retry))))))
     = Some [js "20240101000000_a"]
  /\ loaded (trace (fst (run (fst (run world_retry)))))
     = [js "20240101000000_a.sql"; js "20240101000000_a.sql"].
Proof. repeat split; vm_compute; reflexivity. Qed.

(** C5, witness: the first script is recorded and its file now holds a
    [DROP TABLE]; the run does not load it. *)
Lemma applied_version_is_never_rerun_witness :
  pending (applied_versions world_a_applied) (js "20240101000000_a.sql") = false
  /\ (exists evs,
        trace (fst (demo_migrate world_a_applied))
        = trace world_a_applied ++ evs
        /\ Forall (untouched (js "20240101000000_a.sql")) evs)
  /\ demo_migrate
       (edit_file (js "20240101000000_a.sql") (inr (js "FAIL"))
          world_a_applied)
     = (edit_file (js "20240101000000_a.sql") (inr (js "FAIL"))
          (fst (demo_migrate world_a_applied)),
        snd (demo_migrate world_a_applied)).
Proof.
  destruct (applied_version_is_never_rerun Journal journal_exec accept_row
              demo_clock world_a_applied
              [row_of (js "20240101000000_a") (js "20240101000000 a") 7]
              (js "20240101000000_a.sql")) as (Hp & Hev & Hedit).
  - reflexivity.
  - vm_compute. left.
  - split; [exact Hp|]. split; [exact Hev|]. apply Hedit.
Defined.

(** C7, counterexample: the database refuses the connection, the run of the
    [migrate] command fails, and the exit code is 0. *)
Lemma failed_migrate_command_exits_zero :
  snd (demo_migrate world_offline) = inl (DbError "ECONNREFUSED")
  /\ exit_code
       (snd (main journal_exec accept_row demo_clock (Some (js "migrate"))
               None world_offline)) = 0%Z.
Proof. split; vm_compute; reflexivity. Qed.

(** C9, counterexample.  For the name [a/../b] the file that is written is
    [b.sql], which carries no timestamp, and not the returned name: the
    next listing returns [b.sql] after the three scripts.  In
    [world_absent], where the migrations directory does not exist yet, and
    in [world_read_only], no file is produced: the write is rejected.  In
    the year 10000 the
    fourteen digits are the year on six digits and the time down to the
    minute: two readings that differ in their seconds give the same file
    name.  For the name [add_user] the recovered name is [add user]: the
    separators of the input come back as spaces.  For the name
    [v2.sql fix] the recovered name is [v2 fix.sql].  For a name that is a
    lone surrogate, the file that is written carries U+FFFD in its place. *)
Lemma authored_file_is_not_as_claimed :
  (snd (createMigration demo_clock (js "a/../b") world_fresh)
   = inr (js "20240102030405_a/../b.sql")
   /\ available_files
        (fst (createMigration demo_clock (js "a/../b") world_fresh))
      = [js "20240101000000_a.sql"; js "20240102000000_b.sql";
         js "20240103000000_c.sql"; js "b.sql"])
  /\ snd (createMigration demo_clock (js "add trades table") world_absent)
     = inl (FsError "ENOENT")
  /\ (snd (createMigration demo_clock (js "add trades table") world_read_only)
      = inl (FsError "EACCES")
      /\ available_files
           (fst (createMigration demo_clock (js "add trades table")
                   world_read_only))
         = available_files world_read_only)
  /\ (snd (createMigration (late_clock 5) (js "x") world_fresh)
      = inr (js "01000001020304_x.sql")
      /\ snd (createMigration (late_clock 59) (js "x") world_fresh)
         = inr (js "01000001020304_x.sql"))
  /\ (snd (createMigration demo_clock (js "add_user") world_fresh)
      = inr (js "20240102030405_add_user.sql")
      /\ recovered_name (js "20240102030405_add_user.sql") = js "add user")
  /\ (snd (createMigration demo_clock (js "v2.sql fix") world_fresh)
      = inr (js "20240102030405_v2.sql_fix.sql")
      /\ recovered_name (js "20240102030405_v2.sql_fix.sql")
         = js "v2 fix.sql")
  /\ (snd (createMigration demo_clock [55296] world_fresh)
      = inr (js "20240102030405_" ++ [55296] ++ js ".sql")
      /\ available_files (fst (createMigration demo_clock [55296] world_fresh))
         = [js "20240101000000_a.sql"; js "20240102000000_b.sql";
            js "20240102030405_" ++ [65533] ++ js ".sql";
            js "20240103000000_c.sql"]).
Proof. repeat split; vm_compute; reflexivity. Qed.

(** C9, witness: the name of the spec, with a wider run of white space. *)
Lemma createMigration_file_name_witness :
  snd (createMigration demo_clock (js "add  trades table") world_fresh)
  = inr (js "20240102030405_add_trades_table.sql")
  /\ (exists entries,
        dir (fs (fst (createMigration demo_clock (js "add  trades table")
                        world_fresh))) = Listing entries
        /\ js "20240102030405_add_trades_table.sql" ∈ entries)
  /\ recovered_name (js "20240102030405_add_trades_table.sql")
     = js "add trades table".
Proof.
  destruct (createMigration_file_name Journal demo_clock world_fresh
              (js "add  trades table"))
    as (Hname & _ & _ & _ & _ & Hdir & Hrec).
  - reflexivity.
  - apply Forall_forall. intros c Hc ->. vm_compute in Hc.
    repeat (apply elem_of_cons in Hc as [Hc|Hc]; [discriminate|]).
    inversion Hc.
  - vm_compute. split; discriminate.
  - discriminate.
  - reflexivity.
  - split; [exact Hname|]. split; [exact (Hdir three_files eq_refl)|].
    destruct Hrec as (_ & _ & Hr); [vm_compute; reflexivity|].
    apply Hr. vm_compute. repeat constructor; discriminate.
Defined.



(** * The further properties on the example worlds *)

(** X2, witness: the script of [world_blank]. *)
Lemma blank_script_is_recorded_witness :
  runMigration journal_exec accept_row demo_clock
    (js "20240101000000_a.sql") (js "20240101000000_a")
    (js "20240101000000 a") world_blank
  = (after world_blank
       (set_ledger
          (Some ([] ++ [row_of (js "20240101000000_a")
                          (js "20240101000000 a") 7]))
          (db world_blank))
       2
       [ReadClock; ReadFile (js "20240101000000_a.sql"); ReadClock;
        Query (InsertMigration (js "20240101000000_a")
                 (js "20240101000000 a") 7);
        ConsoleLog (MsgExecuted (js "20240101000000_a")
                      (js "20240101000000 a") 7)],
     inr tt).
Proof.
  apply (blank_script_is_recorded Journal journal_exec accept_row demo_clock
           (js "20240101000000_a.sql") (js "20240101000000_a")
           (js "20240101000000 a") world_blank (js " ; ;  ") []).
  - vm_compute; reflexivity.
  - vm_compute.
    repeat (constructor; [first [left; reflexivity|right; reflexivity]|]).
    constructor.
  - reflexivity.
  - apply not_elem_of_nil.
  - reflexivity.
Defined.

(** X3, witness: in [world_collision] the file [x.sqly.sql] is applied first
    and records the version [xy.sql]; the file [xy.sql.sql] then derives the
    same version. *)
Lemma duplicate_version_runs_then_rejects_witness :
  snd (runMigration journal_exec accept_row demo_clock
         (js "xy.sql.sql") (js "xy.sql") (js "xy.sql")
         (fst (demo_migrate_files [] [js "x.sqly.sql"] 0%nat
                 (fst (demo_diffing world_collision)))))
  = inl (DbError "23505")
  /\ snd (demo_migrate world_collision) = inl (DbError "23505")
  /\ schema (db (fst (demo_migrate world_collision)))
     = [js "CREATE TABLE first"; js "CREATE TABLE second"]
  /\ option_map versions_of (ledger (db (fst (demo_migrate world_collision))))
     = Some [js "xy.sql"].
Proof.
  split; [|repeat split; vm_compute; reflexivity].
  rewrite (duplicate_version_runs_then_rejects Journal journal_exec accept_row
             demo_clock (js "xy.sql.sql") (js "xy.sql") (js "xy.sql")
             (fst (demo_migrate_files [] [js "x.sqly.sql"] 0%nat
                     (fst (demo_diffing world_collision))))
             (js "CREATE TABLE second")
             [row_of (js "xy.sql") (js "xy.sql") 7]).
  - reflexivity.
  - vm_compute; reflexivity.
  - vm_compute; reflexivity.
  - vm_compute; reflexivity.
  - vm_compute. left.
Defined.

(** X4, witness: the database of [world_offline] refuses the connection. *)
Lemma refused_connection_aborts_the_run_witness :
  demo_migrate world_offline
  = (after world_offline (db world_offline) 0
       [Connect; ConsoleError (MsgInitFailed (DbError "ECONNREFUSED"));
        ConsoleError (MsgFailed (DbError "ECONNREFUSED")); Close],
     inl (DbError "ECONNREFUSED")).
Proof.
  apply (refused_connection_aborts_the_run Journal journal_exec accept_row
           demo_clock world_offline (DbError "ECONNREFUSED")).
  reflexivity.
Defined.

(** X5, witness: the second script of [world_b_vanished] is gone. *)
Lemma vanished_script_aborts_the_run_witness :
  snd (demo_migrate world_b_vanished) = inl (FsError "ENOENT").
Proof.
  rewrite (vanished_script_aborts_the_run Journal journal_exec accept_row
             demo_clock world_b_vanished []
             [js "20240101000000_a.sql"] (js "20240102000000_b.sql")
             [js "20240103000000_c.sql"] 1%nat (FsError "ENOENT")).
  - reflexivity.
  - vm_compute; reflexivity.
  - vm_compute; reflexivity.
  - vm_compute; reflexivity.
  - vm_compute; reflexivity.
Defined.

(** X7, witness: the two colliding files of [world_collision]. *)
Lemma ledger_versions_stay_distinct_witness :
  NoDup (versions_of (ledger_rows (fst (demo_migrate world_collision)))).
Proof.
  apply (ledger_versions_stay_distinct Journal journal_exec accept_row
           demo_clock world_collision).
  constructor.
Defined.

(** X9, witness: the three scripts of [world_fresh]. *)
Lemma resolved_run_applies_all_pending_witness :
  exists rows,
    ledger (db (fst (demo_migrate world_fresh))) = Some rows
    /\ map (fun row => (row_version row, row_name row)) rows
       = [(js "20240101000000_a", js "20240101000000 a");
          (js "20240102000000_b", js "20240102000000 b");
          (js "20240103000000_c", js "20240103000000 c")].
Proof.
  destruct (resolved_run_applies_all_pending Journal journal_exec accept_row
              demo_clock world_fresh) as (rows & evs & Hl & Hrows & _).
  - vm_compute; reflexivity.
  - exists rows. split; [exact Hl|].
    rewrite Hrows. vm_compute. reflexivity.
Defined.

(** X10, witness: the second script of [world_b_fails], whose second
    statement is rejected. *)
Lemma statements_are_sent_in_order_witness :
  let w0 := fst (demo_diffing world_b_fails) in
  let r := runMigration journal_exec accept_row demo_clock
             (js "20240102000000_b.sql") (js "20240102000000_b")
             (js "20240102000000 b") w0 in
  exists evs,
    trace (fst r)
    = trace w0 ++ ReadClock :: ReadFile (js "20240102000000_b.sql") :: evs
    /\ evs = [Query (Statement (js "CREATE TABLE b"));
              Query (Statement (js "FAIL b"));
              ConsoleError
                (MsgMigrationFailed (js "20240102000000_b")
                   (js "20240102000000 b") (DbError "42601"))].
Proof.
  cbn zeta.
  destruct (statements_are_sent_in_order Journal journal_exec accept_row
              demo_clock (js "20240102000000_b.sql") (js "20240102000000_b")
              (js "20240102000000 b") (fst (demo_diffing world_b_fails))
              (js "CREATE TABLE b; FAIL b; CREATE TABLE b2"))
    as (evs & Ht & _).
  - vm_compute; reflexivity.
  - exists evs. split; [exact Ht|].
    vm_compute in Ht. injection Ht as <-. reflexivity.
Defined.

(** X11, witness: the absent directory of [world_absent]. *)
Lemma missing_directory_is_created_once_witness :
  snd (getMigrationFiles world_absent) = inr []
  /\ dir (fs (fst (getMigrationFiles world_absent))) = Listing []
  /\ snd (getMigrationFiles (fst (getMigrationFiles world_absent))) = inr [].
Proof.
  destruct (missing_directory_is_created_once Journal world_absent)
    as (H1 & H2 & H3); try reflexivity.
  split; [exact H1|]. split; [exact H2|]. rewrite H3. reflexivity.
Defined.

(** X12, witness: two scripts of the spec. *)
Lemma plain_file_names_have_distinct_versions_witness :
  JS.endsWith (js ".sql") (js "20240101000000_a" ++ js ".sql") = true
  /\ version_of (js "20240101000000_a" ++ js ".sql") = js "20240101000000_a"
  /\ (version_of (js "20240101000000_a" ++ js ".sql")
      = version_of (js "20240102000000_b" ++ js ".sql") ->
      js "20240101000000_a" ++ js ".sql" = js "20240102000000_b" ++ js ".sql").
Proof.
  apply (plain_file_names_have_distinct_versions
           (js "20240101000000_a") (js "20240102000000_b"));
    vm_compute; reflexivity.
Defined.


(** X15, witness: a script authored next to the three of [world_fresh]. *)
Lemma authored_file_is_discovered_witness :
  js "20240102030405_add_trades_table.sql"
  ∈ available_files (fst (createMigration demo_clock (js "add trades table")
                            world_fresh)).
Proof.
  destruct (authored_file_is_discovered Journal demo_clock world_fresh
              (js "add trades table") three_files
              (js "20240102030405_add_trades_table.sql"))
    as (_ & _ & _ & H).
  - reflexivity.
  - vm_compute; reflexivity.
  - apply H; [reflexivity|].
    apply Forall_forall. intros c Hc ->. vm_compute in Hc.
    repeat (apply elem_of_cons in Hc as [Hc|Hc]; [discriminate|]).
    inversion Hc.
Defined.


(** X17, witness: no command at all, and [create] with a name. *)
Lemma main_other_commands_witness :
  snd (main journal_exec accept_row demo_clock None None world_fresh) = Exit 1
  /\ snd (main journal_exec accept_row demo_clock (Some (js "create"))
            (Some (js "add trades table")) world_fresh) = Returned.
Proof.
  destruct (main_other_commands Journal journal_exec accept_row demo_clock
              world_fresh None None) as [Husage _].
  destruct (main_other_commands Journal journal_exec accept_row demo_clock
              world_fresh (Some (js "create")) None) as [_ Hcreate].
  split.
  - rewrite Husage; [reflexivity|discriminate|discriminate].
  - apply (Hcreate (js "add trades table")). discriminate.
Defined.

(** X20, witness: the application on the three scripts of [world_fresh]. *)
Lemma migrate_route_after_startup_witness :
  status (snd (post_db_migrate journal_exec accept_row demo_clock
                 (fst (startApp journal_exec accept_row demo_clock app_fresh))))
  = 200.
Proof.
  destruct (migrate_route_after_startup Journal journal_exec accept_row
              demo_clock app_fresh) as (H & _).
  - vm_compute; reflexivity.
  - exact H.
Defined.
